(** * Adaptive-step matrix completion: a shallow embedding of
      [NEGradient_GenePriority/compute_models/smc.py]

    The class [MatrixCompletion] of the source owns two factor matrices
    [H1], [H2] and refines them in [MC_adaptive_2], a gradient loop with a
    cubic-regularisation step and a backtracking sub-loop.

    Modelling choices.
    - Scalars are IEEE binary64 numbers, Rocq's primitive [float]: what
      Python's [float] and NumPy's [float64] are.  [+], [-], [*], [/], [sqrt]
      and the comparisons are the IEEE ones.
    - A matrix is the list of its rows, summed in row-major order.  A SciPy
      sparse matrix does not store its zero entries, and its products (by a
      scalar, entry by entry, row by column) only touch stored entries: here
      an entry that is zero stands for one that is not stored, and stays
      zero in a product even against an infinite or NaN factor.  SciPy
      raises [ValueError] on operands of incompatible shapes; that path is not
      modelled: the model is the program on well-shaped objects ([wf]), a
      property every run keeps (C6).  The examples are well-shaped.
    - The object is mutable: [MC_adaptive_2] assigns [self.H1] and [self.H2].
      Code that touches the object lives in a state-and-exception monad [M];
      an exception leaves the object as it was when it was raised.
    - The [while] loop of the source is run with fuel; [Timeout] is the
      outcome of a loop that did not finish within the fuel.
    - Three library facilities are parameters of the development (class
      [Backend]): C's [pow], scikit-learn's [mean_squared_error] and the
      stream of draws of NumPy's seeded generator.  Every theorem holds for
      all backends; examples are run on the reference backend [ref_backend].
    - Wall-clock time ([runtime]) is not modelled. *)

From Stdlib Require Import List ZArith Bool Lia PeanoNat Uint63 Floats.
Import ListNotations.

Set Implicit Arguments.
Local Open Scope float_scope.

(** ** Exceptions and outcomes *)

Inductive exn : Set :=
| OverflowError
| ZeroDivisionError
| ValueError
| AttributeError
| UnboundLocalError.

Inductive outcome (X : Type) : Type :=
| Return (x : X)
| Raise (e : exn)
| Timeout.

Arguments Return {X} x.
Arguments Raise {X} e.
Arguments Timeout {X}.

(** ** Scalars *)

Definition of_nat (n : nat) : float :=
  PrimFloat.of_uint63 (Uint63.of_Z (Z.of_nat n)).

(** [np.finfo(float).max] *)
Definition float_max : float := 0x1.fffffffffffffp+1023.

Definition two52 : float := 0x1p+52.

(** A binary64 number of magnitude at least 2^52 is an integer; below,
    adding and subtracting 2^52 rounds to the nearest integer. *)
Definition is_integral (y : float) : bool :=
  (two52 <=? abs y) || ((abs y + two52) - two52 =? abs y).

Definition is_finite (x : float) : bool :=
  negb (is_nan x) && negb (is_infinity x).

(** Python's [/] on two built-in floats raises on a zero divisor. *)
Definition py_div (x y : float) : outcome float :=
  if y =? 0 then Raise ZeroDivisionError else Return (x / y).

(** ** Matrices: SciPy's sparse operations *)

Definition matrix : Set := list (list float).

Definition nrows (X : matrix) : nat := length X.

Definition ncols (X : matrix) : nat :=
  match X with
  | [] => 0%nat
  | r :: _ => length r
  end.

(** [X.shape] *)
Definition shape (X : matrix) : nat * nat := (nrows X, ncols X).

Definition has_shape (m n : nat) (X : matrix) : bool :=
  (length X =? m)%nat && forallb (fun r => (length r =? n)%nat) X.

Definition map2 {X Y Z : Type} (f : X -> Y -> Z) (xs : list X) (ys : list Y)
  : list Z :=
  map (fun p => f (fst p) (snd p)) (combine xs ys).

(** The product of two entries: an entry that is not stored is not
    multiplied. *)
Definition mul_stored (x y : float) : float :=
  if (x =? 0) || (y =? 0) then 0 else x * y.

(** [X + Y], [X - Y], [X.multiply(Y)], [s * X] *)
Definition madd (X Y : matrix) : matrix := map2 (map2 PrimFloat.add) X Y.
Definition msub (X Y : matrix) : matrix := map2 (map2 PrimFloat.sub) X Y.
Definition multiply (X Y : matrix) : matrix := map2 (map2 mul_stored) X Y.
Definition smul (s : float) (X : matrix) : matrix :=
  map (map (fun x => if x =? 0 then 0 else s * x)) X.

Definition column (j : nat) (X : matrix) : list float :=
  map (fun r => nth j r 0) X.

(** [X.T] *)
Definition transpose (X : matrix) : matrix :=
  map (fun j => column j X) (seq 0 (ncols X)).

Definition fsum (xs : list float) : float := fold_left PrimFloat.add xs 0.

Definition dotprod (u v : list float) : float := fsum (map2 mul_stored u v).

(** [X.dot(Y)] *)
Definition dot (X Y : matrix) : matrix :=
  map (fun r => map (fun j => dotprod r (column j Y)) (seq 0 (ncols Y))) X.

(** [sp.vstack([X, Y])] *)
Definition vstack (X Y : matrix) : matrix := X ++ Y.

(** [X.sum()] *)
Definition msum (X : matrix) : float := fsum (concat X).

(** [sp.linalg.norm(X)], the Frobenius norm ([ord="fro"] is the default) *)
Definition norm (X : matrix) : float :=
  PrimFloat.sqrt (fsum (map (fun x => x * x) (concat X))).

(** [X.nonzero()]: the positions of the non-zero entries, row by row *)
Definition nonzero (X : matrix) : list (nat * nat) :=
  concat
    (map (fun ir =>
            map (fun jx => (fst ir, fst jx))
                (filter (fun jx => negb (snd jx =? 0))
                        (combine (seq 0 (length (snd ir))) (snd ir))))
         (combine (seq 0 (length X)) X)).

(** [X[idx].A1]: the entries at the given positions, as a flat array *)
Definition take (X : matrix) (idx : list (nat * nat)) : list float :=
  map (fun ij => nth (snd ij) (nth (fst ij) X []) 0) idx.

(** ** The result record (lines 25-42), without [runtime] *)

Module MCAdaptive2Result.
Record t : Type := {
  completed_matrix : matrix;
  loss_history : list float;
  iterations : nat;
  rmse_history : list float
}.
End MCAdaptive2Result.

(** ** Library functions the source calls *)

Class Backend : Type := {
  (** C's [pow(x, y)], which [**] and the built-in [pow] reach, outside its
      domain error *)
  libm_pow : float -> float -> float;
  (** [sklearn.metrics.mean_squared_error(y_true, y_pred)]; [None] when it
      raises [ValueError], as scikit-learn's input validation does *)
  mean_squared_error : list float -> list float -> option float;
  (** the successive draws of [np.random.randn] after [np.random.seed(123)] *)
  randn_draw : nat -> float
}.

Section Program.

Context {B : Backend}.

(** [a ** y] on a [float64].  A finite negative base with a finite exponent
    that is no integer is C's domain error: the result is NaN (on a built-in
    Python [float] the same expression yields a complex number).  Everything
    else is libm's. *)
Definition domain_error (a y : float) : bool :=
  (a <? 0) && negb (is_infinity a) && is_finite y && negb (is_integral y).

Definition pow (a y : float) : float :=
  if domain_error a y then nan else libm_pow a y.

(** [np.random.randn(r, c)] from draw number [start] on: NumPy fills the
    array in row-major order. *)
Definition randn (start r c : nat) : matrix :=
  map (fun i => map (fun j => randn_draw (start + i * c + j)) (seq 0 c))
      (seq 0 r).

(** ** The optimizer object *)

Record MatrixCompletion : Type := {
  A : matrix;
  mask : matrix;
  test_matrix : matrix;
  test_mask : matrix;
  k : nat;
  mu : float;
  iterations : nat;
  H1 : matrix;
  H2 : matrix
}.

Definition set_H1 (X : matrix) (self : MatrixCompletion) : MatrixCompletion :=
  {| A := A self; mask := mask self; test_matrix := test_matrix self;
     test_mask := test_mask self; k := k self; mu := mu self;
     iterations := iterations self; H1 := X; H2 := H2 self |}.

Definition set_H2 (X : matrix) (self : MatrixCompletion) : MatrixCompletion :=
  {| A := A self; mask := mask self; test_matrix := test_matrix self;
     test_mask := test_mask self; k := k self; mu := mu self;
     iterations := iterations self; H1 := H1 self; H2 := X |}.

(** [MatrixCompletion.__init__] (lines 61-100).  No statement of the
    constructor looks at the shape of [mask], [test] or [test_mask]. *)
Definition init (A mask test test_mask : matrix) (k : nat) (mu : float)
    (iterations : nat) : outcome MatrixCompletion :=
  let '(m, n) := shape A in
  Return {| A := A; mask := mask; test_matrix := test; test_mask := test_mask;
            k := k; mu := mu; iterations := iterations;
            H1 := randn 0 m k;
            H2 := randn (m * k) k n |}.

(** [calculate_loss] (lines 102-113) *)
Definition calculate_loss (self : MatrixCompletion) : float :=
  let residual := multiply (mask self) (msub (A self) (dot (H1 self) (H2 self))) in
  0.5 * pow (norm residual) 2.

(** [calculate_rmse] (lines 115-134).  Indexing a sparse matrix by an empty
    selection yields a sparse matrix, which has no [.A1]: line 128 raises
    [AttributeError] when the test mask has no non-zero entry. *)
Definition calculate_rmse (self : MatrixCompletion) : outcome float :=
  let predicted_matrix := dot (H1 self) (H2 self) in
  let test_predictions := multiply (test_mask self) predicted_matrix in
  match nonzero (test_mask self) with
  | [] => Raise AttributeError
  | _ :: _ =>
      let test_values_actual :=
        take (test_matrix self) (nonzero (test_mask self)) in
      let test_values_predicted :=
        take test_predictions (nonzero (test_mask self)) in
      match mean_squared_error test_values_actual test_values_predicted with
      | Some mse => Return (PrimFloat.sqrt mse)
      | None => Raise ValueError
      end
  end.

(** [nthr] (lines 282-294): [pow(a, 1 / n)]; [1 / n] divides two built-in
    numbers. *)
Definition nthr (a : float) (n : nat) : outcome float :=
  match py_div 1 (of_nat n) with
  | Return y => Return (pow a y)
  | Raise e => Raise e
  | Timeout => Timeout
  end.

(** [func_h] (lines 296-311) *)
Definition func_h (W : matrix) (tau : float) : float :=
  let fro_norm := norm W in
  0.25 * pow fro_norm 4 + 0.5 * tau * pow fro_norm 2.

(** [D_h] (lines 313-332) *)
Definition D_h (W1 W2 : matrix) (tau : float) : float :=
  let hw1 := func_h W1 tau in
  let hw2 := func_h W2 tau in
  let grad_h_w2 := smul (pow (norm W2) 2 + tau) W2 in
  hw1 - hw2 - msum (dot (transpose grad_h_w2) (msub W1 W2)).

End Program.

(** ** State and exceptions

    A computation on the object: it returns the object as it has become,
    and how it ended. *)

Definition M (X : Type) : Type :=
  MatrixCompletion -> MatrixCompletion * outcome X.

Definition ret {X} (x : X) : M X := fun self => (self, Return x).

Definition raise {X} (e : exn) : M X := fun self => (self, Raise e).

Definition lift {X} (o : outcome X) : M X := fun self => (self, o).

Definition read {X} (f : MatrixCompletion -> X) : M X :=
  fun self => (self, Return (f self)).

Definition call {X} (f : MatrixCompletion -> outcome X) : M X :=
  fun self => (self, f self).

Definition assign (f : MatrixCompletion -> MatrixCompletion) : M unit :=
  fun self => (f self, Return tt).

Definition bind {X Y} (c : M X) (f : X -> M Y) : M Y :=
  fun self =>
    match c self with
    | (self', Return x) => f x self'
    | (self', Raise e) => (self', Raise e)
    | (self', Timeout) => (self', Timeout)
    end.

Notation "x <- c ;; f" := (bind c (fun x => f))
  (at level 61, c at next level, right associativity).
Notation "c ;;; f" := (bind c (fun _ => f))
  (at level 61, right associativity).

Section Algorithm.

Context {B : Backend}.

(** ** [MC_adaptive_2] (lines 136-280) *)

(** The locals assigned once, before the loop (lines 154 and 163-165) *)
Record env : Type := {
  m : nat;
  n : nat;
  tau : float;
  tau1 : float;
  t1 : float
}.

Definition setup (self : MatrixCompletion) : env :=
  let '(m, n) := shape (A self) in
  let tau := norm (A self) / 3 in
  let tau1 := - (pow tau 2) / 3 in
  let t1 := tau1 / 3 in
  {| m := m; n := n; tau := tau; tau1 := tau1; t1 := t1 |}.

Definition set_t1 (x : float) (e : env) : env :=
  {| m := m e; n := n e; tau := tau e; tau1 := tau1 e; t1 := x |}.

(** The locals that live across outer iterations.  [i] is unbound until the
    [for] statement assigns it. *)
Record locals : Type := {
  loss : list float;
  rmse : list float;
  Wk : matrix;
  alpha_k : float;
  L : float;
  i : option nat
}.

(** The locals of the backtracking sub-loop; [cand_L] is the local [L]. *)
Record candidate : Type := {
  cand_L : float;
  Wk1 : matrix;
  fk1 : float;
  j : nat;
  flag : nat
}.

(** Lines 174-184 *)
Definition gradient (self : MatrixCompletion) : matrix :=
  let grad_u :=
    madd (dot (multiply (mask self) (msub (dot (H1 self) (H2 self)) (A self)))
              (transpose (H2 self)))
         (smul (mu self) (H1 self)) in
  let grad_v :=
    madd (dot (multiply (transpose (mask self))
                        (msub (dot (transpose (H2 self)) (transpose (H1 self)))
                              (transpose (A self))))
              (H1 self))
         (smul (mu self) (transpose (H2 self))) in
  vstack grad_u grad_v.

Definition obind {X Y} (o : outcome X) (f : X -> outcome Y) : outcome Y :=
  match o with
  | Return x => f x
  | Raise e => Raise e
  | Timeout => Timeout
  end.

(** Lines 187-202: the step proposed at the top of an outer iteration *)
Definition step_T1 (e : env) (tau2 : float) : float :=
  - tau2 + PrimFloat.sqrt (pow tau2 2 + pow (t1 e) 3).

Definition step_T2 (e : env) (tau2 : float) : float :=
  - tau2 - PrimFloat.sqrt (pow tau2 2 + pow (t1 e) 3).

Definition step_grad (e : env) (alpha_k : float) (Wk grad_f_Wk : matrix)
  : matrix :=
  msub (smul (pow (norm Wk) 2 + tau e) Wk) (smul alpha_k grad_f_Wk).

Definition step_tau2 (e : env) (grad : matrix) : float :=
  (- 2 * pow (tau e) 3 - 27 * pow (norm grad) 2) / 27 / 2.

Definition step (e : env) (alpha_k : float) (Wk grad_f_Wk : matrix)
  : outcome matrix :=
  let grad := step_grad e alpha_k Wk grad_f_Wk in
  let tau2 := step_tau2 e grad in
  let T1 := step_T1 e tau2 in
  let T2 := step_T2 e tau2 in
  obind (nthr T1 3) (fun r1 =>
  obind (nthr T2 3) (fun r2 =>
  let t := tau e / 3 + r1 + r2 in
  Return (smul (1 / t) grad))).

(** Lines 227-238: the step recomputed inside the sub-loop *)
Definition retry_T1 (e : env) (tau2 : float) : float :=
  - tau2 + PrimFloat.sqrt (pow tau2 2 + pow (t1 e / 3) 3).

Definition retry_T2 (e : env) (tau2 : float) : float :=
  - tau2 - PrimFloat.sqrt (pow tau2 2 + pow (t1 e / 3) 3).

Definition retry_step (e : env) (alpha_k : float) (Wk grad_f_Wk : matrix)
  : outcome matrix :=
  let grad := step_grad e alpha_k Wk grad_f_Wk in
  let tau2 := step_tau2 e grad in
  let T1 := retry_T1 e tau2 in
  let T2 := retry_T2 e tau2 in
  obind (nthr T1 3) (fun r1 =>
  obind (nthr T2 3) (fun r2 =>
  let t := tau e / 3 + r1 + r2 in
  Return (smul (1 / t) grad))).

(** Lines 203-204 and 239-240: the candidate is split into the object *)
Definition split (e : env) (W : matrix) : M unit :=
  assign (set_H1 (firstn (m e) W)) ;;;
  assign (set_H2 (transpose (skipn (m e) W))).

(** Lines 213-215: the right-hand side of the acceptance test, and the test
    of the [while]: the candidate is rejected when [fk1 > bound]. *)
Definition bound (e : env) (st : locals) (grad_f_Wk : matrix) (c : candidate)
  : float :=
  last (loss st) 0
  + msum (dot (transpose grad_f_Wk) (msub (Wk1 c) (Wk st)))
  + cand_L c * D_h (Wk1 c) (Wk st) (tau e).

Definition rejected (e : env) (st : locals) (grad_f_Wk : matrix)
    (c : candidate) : bool :=
  bound e st grad_f_Wk c <? fk1 c.

(** After a candidate is split into the object, the object holds it. *)
Definition holds (e : env) (self : MatrixCompletion) (c : candidate) : Prop :=
  H1 self = firstn (m e) (Wk1 c)
  /\ H2 self = transpose (skipn (m e) (Wk1 c))
  /\ fk1 c = calculate_loss self.

Section Run.

Variables (lam rho1 rho2 : float) (threshold : nat).

(** Line 222: the guard of the sub-loop, after [j += 1].  [rho1] is a
    built-in float: [rho1 ** j] itself raises [OverflowError] when a finite
    [rho1] gives a power out of range, on the positive side, where the
    comparison would hold too, and on the negative side. *)
Definition overflow (j : nat) : bool :=
  (float_max <? pow rho1 (of_nat j))
  || (is_finite rho1 && (pow rho1 (of_nat j) <? - float_max))
  || (j =? threshold)%nat.

(** Lines 225-241: one more attempt, [j] already incremented *)
Definition retry (e : env) (st : locals) (grad_f_Wk : matrix) (c : candidate)
  : M candidate :=
  let L := cand_L c * rho1 in
  alpha_k <- lift (py_div (1 + lam) L) ;;
  W <- lift (retry_step e alpha_k (Wk st) grad_f_Wk) ;;
  split e W ;;;
  f <- read calculate_loss ;;
  ret {| cand_L := L; Wk1 := W; fk1 := f; j := S (j c); flag := 1 |}.

(** Lines 213-241: the [while] loop *)
Fixpoint backtrack (fuel : nat) (e : env) (st : locals) (grad_f_Wk : matrix)
    (c : candidate) : M candidate :=
  if rejected e st grad_f_Wk c then
    match fuel with
    | O => lift Timeout
    | S fuel' =>
        if overflow (S (j c)) then raise OverflowError
        else c' <- retry e st grad_f_Wk c ;;
             backtrack fuel' e st grad_f_Wk c'
    end
  else ret c.

(** Lines 172-204: gradient, proposed step, first candidate *)
Definition propose (e : env) (st : locals) : M (matrix * candidate) :=
  grad_f_Wk <- read gradient ;;
  W <- lift (step e (alpha_k st) (Wk st) grad_f_Wk) ;;
  split e W ;;;
  f <- read calculate_loss ;;
  ret (grad_f_Wk, {| cand_L := L st; Wk1 := W; fk1 := f; j := 0; flag := 0 |}).

(** Lines 243-259: the accepted candidate is committed; the flag returned
    says whether the loop is left ([break]). *)
Definition commit (e : env) (st : locals) (idx : nat) (c : candidate)
  : M (locals * bool) :=
  let L := if (flag c =? 1)%nat then cand_L c * rho2 else cand_L c in
  alpha_k <- lift (py_div (1 + lam) L) ;;
  r <- call calculate_rmse ;;
  ret ({| loss := loss st ++ [fk1 c / of_nat (m e * n e)];
          rmse := rmse st ++ [r];
          Wk := Wk1 c;
          alpha_k := alpha_k;
          L := L;
          i := Some idx |},
       is_nan (fk1 c)).

(** Lines 171-268: the body of the [for] loop.  The [except] clause logs
    and re-raises. *)
Definition iteration (fuel : nat) (e : env) (st : locals) (idx : nat)
  : M (locals * bool) :=
  p <- propose e st ;;
  c <- backtrack fuel e st (fst p) (snd p) ;;
  commit e st idx c.

(** Line 170: [for i in range(self.iterations)] *)
Fixpoint for_loop (fuel : nat) (e : env) (idxs : list nat) (st : locals)
  : M (locals * bool) :=
  match idxs with
  | [] => ret (st, false)
  | idx :: rest =>
      r <- iteration fuel e st idx ;;
      if snd r then ret r else for_loop fuel e rest (fst r)
  end.

(** Lines 153-167 *)
Definition start (L : float) : M (env * locals) :=
  e <- read setup ;;
  f <- read calculate_loss ;;
  r <- call calculate_rmse ;;
  W <- read (fun self => vstack (H1 self) (transpose (H2 self))) ;;
  alpha_k <- lift (py_div 1 L) ;;
  ret (e, {| loss := [f / of_nat (m e * n e)]; rmse := [r]; Wk := W;
             alpha_k := alpha_k; L := L; i := None |}).

(** Lines 270-280 *)
Definition finish (st : locals) : M MCAdaptive2Result.t :=
  completed <- read (fun self => dot (H1 self) (H2 self)) ;;
  match i st with
  | None => raise UnboundLocalError
  | Some i =>
      ret {| MCAdaptive2Result.completed_matrix := completed;
             MCAdaptive2Result.loss_history := loss st;
             MCAdaptive2Result.iterations := i;
             MCAdaptive2Result.rmse_history := rmse st |}
  end.

Definition run (fuel : nat) (L : float) : M MCAdaptive2Result.t :=
  s <- start L ;;
  budget <- read iterations ;;
  r <- for_loop fuel (fst s) (seq 0 budget) (snd s) ;;
  finish (fst r).

(** *** Vocabulary for the properties *)

(** The object and the candidate after [q] more attempts of the sub-loop,
    the guard left aside *)
Fixpoint attempts (q : nat) (e : env) (st : locals) (grad_f_Wk : matrix)
    (c : candidate) : M candidate :=
  match q with
  | O => ret c
  | S q' => c' <- retry e st grad_f_Wk c ;; attempts q' e st grad_f_Wk c'
  end.

(** The run up to the end of its first [p] outer iterations: the locals
    then, and whether the loop was left by [break] *)
Definition state_at (fuel : nat) (L : float) (p : nat)
  : M (env * (locals * bool)) :=
  s <- start L ;;
  r <- for_loop fuel (fst s) (seq 0 p) (snd s) ;;
  ret (fst s, r).

(** The number of outer iterations that [for_loop] enters *)
Fixpoint executed (fuel : nat) (e : env) (idxs : list nat) (st : locals)
    (self : MatrixCompletion) : nat :=
  match idxs with
  | [] => 0
  | idx :: rest =>
      match iteration fuel e st idx self with
      | (self', Return (st', false)) => S (executed fuel e rest st' self')
      | _ => 1
      end
  end.

(** The number of outer iterations a run enters *)
Definition iterations_executed (fuel : nat) (L : float)
    (self : MatrixCompletion) : nat :=
  match start L self with
  | (self0, Return (e, st0)) =>
      executed fuel e (seq 0 (iterations self0)) st0 self0
  | _ => 0
  end.

End Run.

Definition MC_adaptive_2 (fuel : nat) (self : MatrixCompletion)
    (lam L rho1 rho2 : float) (threshold : nat)
  : MatrixCompletion * outcome MCAdaptive2Result.t :=
  run lam rho1 rho2 threshold fuel L self.

End Algorithm.

(** ** Well-shaped objects

    [A] is m x n with m, n >= 1, the masks and the test matrix have its
    shape, and the factors are m x k and k x n with k >= 1. *)
Definition wf (self : MatrixCompletion) : bool :=
  let '(m, n) := shape (A self) in
  (1 <=? m)%nat && (1 <=? n)%nat && (1 <=? k self)%nat
  && has_shape m n (A self) && has_shape m n (mask self)
  && has_shape m n (test_matrix self) && has_shape m n (test_mask self)
  && has_shape m (k self) (H1 self) && has_shape (k self) n (H2 self).

(** The shapes of a run on a well-shaped object, with [m], [n] of [e] and
    the stacked matrix [W]: [H1] is m x k, [H2] is k x n, [W] is
    (m + n) x k, and the factors are the two parts of [W]. *)
Definition shaped (e : env) (self : MatrixCompletion) (W : matrix) : Prop :=
  wf self = true
  /\ shape (A self) = (m e, n e)
  /\ has_shape (m e) (k self) (H1 self) = true
  /\ has_shape (k self) (n e) (H2 self) = true
  /\ has_shape (m e + n e) (k self) W = true
  /\ H1 self = firstn (m e) W
  /\ H2 self = transpose (skipn (m e) W).

(** What a run is given, and only reads: every field but the factors *)
Definition same_inputs (self self' : MatrixCompletion) : Prop :=
  A self' = A self /\ mask self' = mask self
  /\ test_matrix self' = test_matrix self
  /\ test_mask self' = test_mask self
  /\ k self' = k self /\ mu self' = mu self
  /\ iterations self' = iterations self.


(** ** A reference backend, to run examples

    [ref_pow] computes integral powers by repeated squaring and the others
    as [exp (y * ln a)], from the power series; it stands for libm's [pow]
    up to rounding.  [ref_mse] validates its arguments as scikit-learn
    does: no empty input, no NaN, no infinity.  [plain_mse] is the bare
    formula.  [ref_draws] is a fixed stream of numbers. *)

Definition ln2 : float := 0x1.62e42fefa39efp-1.

Fixpoint atanh_series (terms : nat) (z2 : float) (d : nat) : float :=
  match terms with
  | O => 0
  | S terms' => 1 / of_nat (2 * d + 1) + z2 * atanh_series terms' z2 (S d)
  end.

Definition ref_ln (a : float) : float :=
  let (f, x) := Z.frexp a in
  let (f, x) :=
    if f <? 0x1.6a09e667f3bcdp-1 then (f * 2, (x - 1)%Z) else (f, x) in
  let z := (f - 1) / (f + 1) in
  PrimFloat.of_uint63 (Uint63.of_Z (Z.abs x))
  * (if (x <? 0)%Z then - ln2 else ln2)
  + 2 * z * atanh_series 16 (z * z) 0.

Fixpoint exp_series (terms : nat) (r : float) (d : nat) : float :=
  match terms with
  | O => 1
  | S terms' => 1 + r / of_nat d * exp_series terms' r (S d)
  end.

Definition to_Z (x : float) : Z :=
  match Prim2SF x with
  | SpecFloat.S754_finite s f x =>
      let v := if (0 <=? x)%Z then Z.shiftl (Zpos f) x
               else Z.shiftr (Zpos f) (- x) in
      if s then (- v)%Z else v
  | _ => 0%Z
  end.

Definition round_int (x : float) : float :=
  if x <? 0 then - ((two52 - x) - two52) else (x + two52) - two52.

Definition ref_exp (x : float) : float :=
  let q := round_int (x / ln2) in
  let r := x - q * ln2 in
  Z.ldexp (exp_series 22 r 1) (to_Z q).

Fixpoint pow_pos (a : float) (p : positive) : float :=
  match p with
  | xH => a
  | xO q => let b := pow_pos a q in b * b
  | xI q => let b := pow_pos a q in a * (b * b)
  end.

Definition ref_pow (a y : float) : float :=
  if is_nan a || is_nan y then nan
  else if y =? 0 then 1
  else if is_integral y && (abs y <? two52) then
    match to_Z y with
    | Zpos p => pow_pos a p
    | Zneg p => 1 / pow_pos a p
    | Z0 => 1
    end
  else if a =? 0 then (if 0 <? y then 0 else infinity)
  else if a =? infinity then (if 0 <? y then infinity else 0)
  else ref_exp (y * ref_ln (abs a)).

Definition plain_mse (ys ps : list float) : option float :=
  Some (fsum (map2 (fun y p => (y - p) * (y - p)) ys ps)
        / of_nat (length ys)).

Definition ref_mse (ys ps : list float) : option float :=
  if (length ys =? 0)%nat || negb (length ys =? length ps)%nat
     || negb (forallb is_finite ys) || negb (forallb is_finite ps)
  then None
  else plain_mse ys ps.

Definition ref_draws : list float :=
  [-1; 1; 0.25; -1.5; -0.5; 1.75; -2.5; -0.5; 1.25; -0.75].

Definition ref_backend : Backend :=
  {| libm_pow := ref_pow;
     mean_squared_error := ref_mse;
     randn_draw := fun d => nth (d mod 10) ref_draws 0 |}.

(** The same, with a [mean_squared_error] that validates nothing *)
Definition plain_backend : Backend :=
  {| libm_pow := ref_pow;
     mean_squared_error := plain_mse;
     randn_draw := fun d => nth (d mod 10) ref_draws 0 |}.

(** ** Example inputs *)

(** The object a constructor call leaves, on the reference backend *)
Definition constructed (A mask test test_mask : matrix) (k : nat)
    (mu : float) (iterations : nat) : MatrixCompletion :=
  match init (B := ref_backend) A mask test test_mask k mu iterations with
  | Return self => self
  | _ => {| A := A; mask := mask; test_matrix := test;
            test_mask := test_mask; k := k; mu := mu;
            iterations := iterations; H1 := []; H2 := [] |}
  end.

(** A 1 x 1 problem, rank 1, fully observed: [H1 = [[-1]]], [H2 = [[1]]] *)
Definition ex_1x1 (a : float) (iterations : nat) : MatrixCompletion :=
  constructed [[a]] [[1]] [[a]] [[1]] 1 0 iterations.

(** A 1 x 2 problem, rank 1 *)
Definition ex_1x2 (iterations : nat) : MatrixCompletion :=
  constructed [[1; 2]] [[1; 1]] [[1; 2]] [[1; 1]] 1 0 iterations.

(** The scenario of the specification: 4 x 3, all entries observed, rank 2,
    mu = 0.1, one outer iteration *)
Definition ex_4x3 : MatrixCompletion :=
  let A := [[1; 0; 2]; [0; 1; 1]; [3; 1; 0]; [1; 1; 1]] in
  let ones := repeat (repeat 1 3) 4 in
  constructed A ones A ones 2 0x1.999999999999ap-4 1.

(** 0.01 *)
Definition lam_001 : float := 0x1.47ae147ae147bp-7.

(** * Properties *)

(** ** The monad *)

Section MonadLaws.

Context {X Y : Type}.

Lemma bind_Return (c : M X) (f : X -> M Y) self self1 x :
  c self = (self1, Return x) -> bind c f self = f x self1.
Proof. intros Hc. unfold bind. now rewrite Hc. Qed.

Lemma bind_Raise (c : M X) (f : X -> M Y) self self1 e :
  c self = (self1, Raise e) -> bind c f self = (self1, Raise e).
Proof. intros Hc. unfold bind. now rewrite Hc. Qed.


Lemma bind_Return_inv (c : M X) (f : X -> M Y) self self' y :
  bind c f self = (self', Return y) ->
  exists self1 x, c self = (self1, Return x) /\ f x self1 = (self', Return y).
Proof.
  unfold bind. destruct (c self) as [self1 [x | e |]]; intros Hb.
  - now exists self1, x.
  - discriminate.
  - discriminate.
Qed.

Lemma bind_Raise_inv (c : M X) (f : X -> M Y) self self' e :
  bind c f self = (self', Raise e) ->
  c self = (self', Raise e)
  \/ exists self1 x, c self = (self1, Return x) /\ f x self1 = (self', Raise e).
Proof.
  unfold bind. destruct (c self) as [self1 [x | e1 |]]; intros Hb.
  - right. now exists self1, x.
  - left. now inversion Hb.
  - discriminate.
Qed.

End MonadLaws.

(** ** The setup scalars (C1) *)

Section Setup.

Context {B : Backend}.

Lemma start_Return_inv (L : float) self self' e st :
  start L self = (self', Return (e, st)) ->
  self' = self /\ e = setup self
  /\ exists r a,
      calculate_rmse self = Return r /\ py_div 1 L = Return a
      /\ st = {| loss := [calculate_loss self / of_nat (m e * n e)];
                 rmse := [r];
                 Wk := vstack (H1 self) (transpose (H2 self));
                 alpha_k := a; L := L; i := None |}.
Proof.
  unfold start, bind, read, call, lift, ret.
  destruct (calculate_rmse self) as [r | x |]; try discriminate.
  destruct (py_div 1 L) as [a | x |]; try discriminate.
  intros Hs. inversion Hs; subst. repeat split. now exists r, a.
Qed.

(** C1, as amended: the run starts with tau = ||A||_F / 3,
    tau1 = -(tau^2) / 3 (the square, not the cube, of tau) and
    t1 = tau1 / 3. *)
Theorem C1_setup_scalars (L : float) self self' e st :
  start L self = (self', Return (e, st)) ->
  tau e = norm (A self) / 3
  /\ tau1 e = - pow (tau e) 2 / 3
  /\ t1 e = tau1 e / 3.
Proof.
  intros Hs. apply start_Return_inv in Hs. destruct Hs as (_ & He & _).
  subst e. unfold setup. destruct (shape (A self)) as [r c]. now cbn.
Qed.

End Setup.

Lemma C1_setup_scalars_witness :
  let self := ex_1x1 6 1 in
  let e := setup (B := ref_backend) self in
  tau e = norm (A self) / 3
  /\ tau1 e = - pow (B := ref_backend) (tau e) 2 / 3
  /\ t1 e = tau1 e / 3.
Proof.
  intros self e.
  destruct (start (B := ref_backend) 1 self) as [self' [[e' st] | x |]] eqn:Hs;
    try (vm_compute in Hs; discriminate).
  pose proof (C1_setup_scalars (B := ref_backend) 1 self Hs) as Hc.
  apply start_Return_inv in Hs. destruct Hs as (_ & He & _). subst e'.
  exact Hc.
Defined.

(** C1, as the specification words it, fails: for A = [[6]] the code has
    tau = 2 and tau1 = -4/3, where -tau^3 / 3 is -8/3. *)
Lemma C1_tau1_is_not_the_cube :
  let e := setup (B := ref_backend) (ex_1x1 6 1) in
  tau e = 2
  /\ (tau1 e =? - pow (B := ref_backend) (tau e) 3 / 3) = false
  /\ (tau1 e =? - 4 / 3) = true
  /\ (- pow (B := ref_backend) (tau e) 3 / 3 =? - 8 / 3) = true.
Proof. vm_compute. repeat split. Qed.

(** ** The n-th root helper (C2) *)

Section Nthr.

Context {B : Backend}.

Lemma nthr_3 (a : float) : nthr a 3 = Return (pow a (1 / 3)).
Proof. reflexivity. Qed.

(** C2: on a negative finite argument [nthr(a, 3)] is [pow(a, 1/3)] with an
    exponent that is no integer: the domain error of [pow].  The result is
    NaN, not the negative real cube root. *)
Theorem C2_nthr_of_negative_is_nan (a : float) :
  (a <? 0) = true -> is_infinity a = false ->
  nthr a 3 = Return nan /\ (pow a (1 / 3) <? 0) = false.
Proof.
  intros Hneg Hfin. rewrite nthr_3.
  assert (Hd : domain_error a (1 / 3) = true).
  { unfold domain_error. rewrite Hneg, Hfin. reflexivity. }
  unfold pow. rewrite Hd. split; reflexivity.
Qed.

End Nthr.

Lemma C2_nthr_of_negative_is_nan_witness :
  nthr (B := ref_backend) (-8) 3 = Return nan
  /\ (pow (B := ref_backend) (-8) (1 / 3) <? 0) = false.
Proof.
  apply (C2_nthr_of_negative_is_nan (B := ref_backend) (a := -8)); reflexivity.
Defined.

(** ** Construction (C3) *)

Lemma has_shape_randn {B : Backend} (start r c : nat) :
  has_shape r c (randn start r c) = true.
Proof.
  unfold has_shape, randn. rewrite length_map, length_seq, Nat.eqb_refl.
  cbn [andb]. apply forallb_forall. intros row Hin.
  apply in_map_iff in Hin. destruct Hin as (x & <- & _).
  rewrite length_map, length_seq. apply Nat.eqb_refl.
Qed.

(** C3, as amended: the constructor validates no shape.  Whatever the
    shapes of the masks and of the test matrix, it returns an object whose
    [H1] (m x k) and [H2] (k x n) are drawn from the seeded generator. *)
Theorem C3_init_validates_nothing {B : Backend}
    (A0 mask0 test0 test_mask0 : matrix) (k0 : nat) (mu0 : float)
    (iterations0 : nat) :
  exists self,
    init A0 mask0 test0 test_mask0 k0 mu0 iterations0 = Return self
    /\ mask self = mask0 /\ test_matrix self = test0
    /\ test_mask self = test_mask0
    /\ H1 self = randn 0 (nrows A0) k0
    /\ H2 self = randn (nrows A0 * k0) k0 (ncols A0)
    /\ has_shape (nrows A0) k0 (H1 self) = true
    /\ has_shape k0 (ncols A0) (H2 self) = true.
Proof.
  unfold init, shape. eexists. split; [reflexivity |]. cbn.
  repeat split; apply has_shape_randn.
Qed.

(** C3, as the specification words it, fails: a 2 x 2 mask for a 1 x 1
    matrix is accepted, and the factors are initialized. *)
Lemma C3_mismatched_mask_is_accepted :
  shape [[1]] = (1, 1)%nat /\ shape [[1; 1]; [1; 1]] = (2, 2)%nat
  /\ exists self,
      init (B := ref_backend) [[1]] [[1; 1]; [1; 1]] [[1]] [[1]] 1 0 1
      = Return self
      /\ H1 self = [[-1]] /\ H2 self = [[1]].
Proof.
  split; [reflexivity |]. split; [reflexivity |].
  eexists. split; [reflexivity |]. split; reflexivity.
Qed.

(** ** The two step computations (C5) *)

(** C5: the step recomputed in the sub-loop (lines 227-238) is the step of
    lines 187-202 with [t1 / 3] in the place of [t1]: its discriminant is
    tau2^2 + (t1/3)^3.  On the 1 x 1 problem A = [[6]] with alpha = 1 the two
    candidates differ. *)
Theorem C5_retry_step_has_another_discriminant :
  (forall (B : Backend) e alpha W g,
      retry_step e alpha W g = step (set_t1 (t1 e / 3) e) alpha W g)
  /\ let self := ex_1x1 6 1 in
     let e := setup (B := ref_backend) self in
     let W := vstack (H1 self) (transpose (H2 self)) in
     let g := gradient self in
     let tau2 := step_tau2 (B := ref_backend) e
                   (step_grad (B := ref_backend) e 1 W g) in
     (step_T1 (B := ref_backend) e tau2 =? retry_T1 (B := ref_backend) e tau2)
     = false
     /\ (step_T2 (B := ref_backend) e tau2 =? retry_T2 (B := ref_backend) e tau2)
        = false
     /\ exists x x' y y',
         step (B := ref_backend) e 1 W g = Return [[x]; [x']]
         /\ retry_step (B := ref_backend) e 1 W g = Return [[y]; [y']]
         /\ (x <? y) = true /\ (y' <? x') = true.
Proof.
  split.
  - intros B e alpha W g. reflexivity.
  - cbv zeta. split; [vm_compute; reflexivity |].
    split; [vm_compute; reflexivity |].
    do 4 eexists. split; [vm_compute; reflexivity |].
    split; [vm_compute; reflexivity |].
    split; vm_compute; reflexivity.
Qed.

(** ** Facts on binary64 numbers *)

Section FloatFacts.

Import SpecFloat.

Lemma SFeqb_refl_nan f : SFeqb f f = false -> f = S754_nan.
Proof.
  unfold SFeqb. destruct f as [s | s | | s f e]; cbn.
  - discriminate.
  - destruct s; discriminate.
  - reflexivity.
  - rewrite Z.compare_refl. fold (Pos.compare f f). rewrite Pos.compare_refl.
    destruct s; discriminate.
Qed.

Lemma is_nan_Prim2SF x : is_nan x = true <-> Prim2SF x = S754_nan.
Proof.
  unfold is_nan. rewrite eqb_spec. split.
  - intros Hn. apply SFeqb_refl_nan. now destruct (SFeqb _ _).
  - intros ->. reflexivity.
Qed.

(** NaN divided by anything is NaN. *)
Lemma is_nan_div x y : is_nan x = true -> is_nan (x / y) = true.
Proof. rewrite !is_nan_Prim2SF, div_spec. intros ->. reflexivity. Qed.



End FloatFacts.

(** ** The structure of a run *)

Section RunStructure.

Context {B : Backend}.

Variables (lam rho1 rho2 : float) (threshold : nat).

Lemma commit_Return_inv e st idx c self self' st' b :
  commit lam rho2 e st idx c self = (self', Return (st', b)) ->
  self' = self /\ b = is_nan (fk1 c)
  /\ loss st' = loss st ++ [fk1 c / of_nat (m e * n e)]
  /\ (exists r, calculate_rmse self = Return r /\ rmse st' = rmse st ++ [r])
  /\ Wk st' = Wk1 c /\ i st' = Some idx.
Proof.
  unfold commit, bind, lift, call, ret.
  destruct (py_div _ _) as [a | x |]; try discriminate.
  destruct (calculate_rmse self) as [r | x |]; try discriminate.
  intros Hc. inversion Hc; subst. cbn. repeat split. now exists r.
Qed.

Lemma iteration_Return_inv fuel e st idx self self' st' b :
  iteration lam rho1 rho2 threshold fuel e st idx self
  = (self', Return (st', b)) ->
  exists self1 g c0 c,
    propose e st self = (self1, Return (g, c0))
    /\ backtrack lam rho1 threshold fuel e st g c0 self1 = (self', Return c)
    /\ commit lam rho2 e st idx c self' = (self', Return (st', b)).
Proof.
  unfold iteration. intros Hi.
  apply bind_Return_inv in Hi. destruct Hi as (self1 & [g c0] & Hp & Hi).
  apply bind_Return_inv in Hi. destruct Hi as (self2 & c & Hb & Hc).
  pose proof (commit_Return_inv _ _ _ _ _ Hc) as (-> & _).
  now exists self1, g, c0, c.
Qed.

Lemma iteration_appends fuel e st idx self self' st' b :
  iteration lam rho1 rho2 threshold fuel e st idx self
  = (self', Return (st', b)) ->
  i st' = Some idx
  /\ length (loss st') = S (length (loss st))
  /\ length (rmse st') = S (length (rmse st)).
Proof.
  intros Hi. apply iteration_Return_inv in Hi.
  destruct Hi as (self1 & g & c0 & c & _ & _ & Hc).
  apply commit_Return_inv in Hc.
  destruct Hc as (_ & _ & Hl & (r & _ & Hr) & _ & Hidx).
  rewrite Hl, Hr, !length_app. cbn. split; [assumption | lia].
Qed.

(** What a finished loop leaves: nothing when the range was empty, else the
    index of the last iteration entered and one history entry for each. *)
Lemma for_loop_counts fuel e len : forall a st self self' st' b,
  for_loop lam rho1 rho2 threshold fuel e (seq a len) st self
  = (self', Return (st', b)) ->
  let x := executed lam rho1 rho2 threshold fuel e (seq a len) st self in
  length (loss st') = (length (loss st) + x)%nat
  /\ length (rmse st') = (length (rmse st) + x)%nat
  /\ (x <= len)%nat
  /\ (b = false -> x = len)
  /\ match x with
     | O => len = 0%nat /\ st' = st
     | S x' => i st' = Some (a + x')%nat
     end.
Proof.
  induction len as [| len IH]; intros a st self self' st' b Hf;
    cbn [for_loop seq] in Hf; cbn [executed seq]; cbv zeta.
  - unfold ret in Hf. inversion Hf; subst. repeat split; lia.
  - unfold bind in Hf.
    destruct (iteration lam rho1 rho2 threshold fuel e st a self)
      as [self1 [[st1 b1] | x |]] eqn:Hi; try discriminate.
    apply iteration_appends in Hi. destruct Hi as (Hidx & Hl & Hr).
    cbn [fst snd] in Hf. destruct b1.
    + unfold ret in Hf. inversion Hf; subst.
      rewrite Hl, Hr, Nat.add_0_r. repeat split; try lia; try discriminate.
      assumption.
    + apply IH in Hf. cbv zeta in Hf.
      destruct Hf as (Hl' & Hr' & Hle & Hb & Hx).
      rewrite Hl', Hr', Hl, Hr. repeat split; try lia.
      * intros Hbf. now rewrite (Hb Hbf).
      * destruct (executed lam rho1 rho2 threshold fuel e (seq (S a) len) st1 self1)
          as [| x'] eqn:Hex.
        -- destruct Hx as [_ ->]. rewrite Nat.add_0_r. assumption.
        -- rewrite Hx. f_equal. lia.
Qed.

(** C4: the record's [iterations] is the last value of the loop variable,
    one less than the number of outer iterations executed, which the
    histories do count. *)
Theorem C4_iterations_field_is_one_short fuel self L self' r :
  MC_adaptive_2 fuel self lam L rho1 rho2 threshold = (self', Return r) ->
  iterations_executed lam rho1 rho2 threshold fuel L self
  = S (MCAdaptive2Result.iterations r)
  /\ length (MCAdaptive2Result.loss_history r)
     = S (iterations_executed lam rho1 rho2 threshold fuel L self)
  /\ length (MCAdaptive2Result.rmse_history r)
     = S (iterations_executed lam rho1 rho2 threshold fuel L self).
Proof.
  unfold MC_adaptive_2, run, iterations_executed. intros Hrun.
  apply bind_Return_inv in Hrun. destruct Hrun as (self0 & [e st0] & Hs & Hrun).
  rewrite Hs.
  apply start_Return_inv in Hs. destruct Hs as (-> & _ & r0 & a0 & _ & _ & Hst0).
  apply bind_Return_inv in Hrun. destruct Hrun as (self1 & budget & Hb & Hrun).
  unfold read in Hb. inversion Hb; subst self1 budget. clear Hb.
  apply bind_Return_inv in Hrun. destruct Hrun as (self2 & [st' b] & Hf & Hfin).
  cbn [fst snd] in *.
  apply for_loop_counts in Hf. cbv zeta in Hf.
  destruct Hf as (Hl & Hr & _ & _ & Hx).
  unfold finish, bind, read in Hfin.
  destruct (executed lam rho1 rho2 threshold fuel e (seq 0 (iterations self)) st0 self)
    as [| x'] eqn:Hex.
  - destruct Hx as [_ ->]. subst st0. cbn in Hfin. discriminate.
  - rewrite Hx in Hfin. unfold ret in Hfin. inversion Hfin; subst r. cbn.
    rewrite Hl, Hr. subst st0. cbn. repeat split; lia.
Qed.


(** *** Where exceptions come from *)

Lemma py_div_Raise x y e0 : py_div x y = Raise e0 -> e0 = ZeroDivisionError.
Proof. unfold py_div. destruct (y =? 0); [now inversion 1 | discriminate]. Qed.

Lemma calculate_rmse_Raise self e0 :
  calculate_rmse self = Raise e0 -> e0 = ValueError \/ e0 = AttributeError.
Proof.
  unfold calculate_rmse. destruct (nonzero (test_mask self)).
  - inversion 1. now right.
  - destruct (mean_squared_error _ _); [discriminate | inversion 1; now left].
Qed.

Lemma step_Raise e a W g e0 : step e a W g = Raise e0 -> e0 = ZeroDivisionError.
Proof. unfold step. rewrite !nthr_3. discriminate. Qed.

Lemma retry_step_Raise e a W g e0 :
  retry_step e a W g = Raise e0 -> e0 = ZeroDivisionError.
Proof. unfold retry_step. rewrite !nthr_3. discriminate. Qed.

Lemma retry_inv e st g c self self' o :
  retry lam rho1 e st g c self = (self', o) ->
  match o with
  | Return c' =>
      holds e self' c' /\ j c' = S (j c) /\ flag c' = 1%nat
      /\ cand_L c' = cand_L c * rho1
  | Raise e0 => e0 = ZeroDivisionError /\ self' = self
  | Timeout => False
  end.
Proof.
  unfold retry, bind, lift, split, assign, read, ret.
  destruct (py_div _ _) as [a | x |] eqn:Hd.
  - destruct (retry_step _ _ _ _) as [W | x |] eqn:Hs.
    + intros Hr. inversion Hr; subst. cbn. now repeat split.
    + intros Hr. inversion Hr; subst. split; [| reflexivity].
      now apply retry_step_Raise in Hs.
    + unfold retry_step in Hs. rewrite !nthr_3 in Hs. discriminate.
  - intros Hr. inversion Hr; subst. split; [| reflexivity].
    now apply py_div_Raise in Hd.
  - unfold py_div in Hd. destruct (_ =? 0); discriminate.
Qed.

Lemma propose_inv e st self self' o :
  propose e st self = (self', o) ->
  match o with
  | Return (g, c0) =>
      g = gradient self /\ holds e self' c0 /\ j c0 = 0%nat /\ flag c0 = 0%nat
      /\ cand_L c0 = L st
      /\ step e (alpha_k st) (Wk st) g = Return (Wk1 c0)
  | Raise e0 => e0 = ZeroDivisionError /\ self' = self
  | Timeout => False
  end.
Proof.
  unfold propose, bind, lift, split, assign, read, ret.
  destruct (step _ _ _ _) as [W | x |] eqn:Hs.
  - intros Hr. inversion Hr; subst. cbn. now repeat split.
  - intros Hr. inversion Hr; subst. split; [| reflexivity].
    now apply step_Raise in Hs.
  - unfold step in Hs. rewrite !nthr_3 in Hs. discriminate.
Qed.

Lemma attempts_holds e st g q : forall c self self' c',
  holds e self c ->
  attempts lam rho1 q e st g c self = (self', Return c') ->
  holds e self' c' /\ j c' = (j c + q)%nat.
Proof.
  induction q as [| q IH]; intros c self self' c' Hh Ha; cbn [attempts] in Ha.
  - unfold ret in Ha. inversion Ha; subst. split; [assumption | lia].
  - apply bind_Return_inv in Ha. destruct Ha as (self1 & c1 & Hr & Ha).
    apply retry_inv in Hr. destruct Hr as (Hh1 & Hj & _).
    destruct (IH _ _ _ _ Hh1 Ha) as (Hh' & Hj'). split; [assumption | lia].
Qed.

(** *** The sub-loop *)


(** Conversely, an [OverflowError] of the sub-loop is raised by the guard,
    after an attempt that was rejected. *)
Lemma backtrack_Raise_overflow e st g fuel : forall c0 self0 self',
  backtrack lam rho1 threshold fuel e st g c0 self0
  = (self', Raise OverflowError) ->
  exists q c,
    attempts lam rho1 q e st g c0 self0 = (self', Return c)
    /\ rejected e st g c = true
    /\ overflow rho1 threshold (S (j c)) = true.
Proof.
  induction fuel as [| fuel IH]; intros c0 self0 self' Hb; cbn [backtrack] in Hb;
    destruct (rejected e st g c0) eqn:Hr0; try discriminate.
  destruct (overflow rho1 threshold (S (j c0))) eqn:Hg.
  - unfold raise in Hb. inversion Hb; subst self'.
    exists 0%nat, c0. now repeat split.
  - apply bind_Raise_inv in Hb. destruct Hb as [Hb | (s1 & c1 & Hret & Hb)].
    + apply retry_inv in Hb. destruct Hb as [Hb _]. discriminate.
    + apply IH in Hb. destruct Hb as (q & c & Ha & Hr & Ho).
      exists (S q), c. repeat split; try assumption.
      cbn [attempts]. now rewrite (bind_Return _ _ _ Hret).
Qed.

(** A candidate the sub-loop returns passed the test. *)
Lemma backtrack_Return_inv e st g fuel : forall c0 self0 self' c,
  backtrack lam rho1 threshold fuel e st g c0 self0 = (self', Return c) ->
  rejected e st g c = false
  /\ exists q, attempts lam rho1 q e st g c0 self0 = (self', Return c).
Proof.
  induction fuel as [| fuel IH]; intros c0 self0 self' c Hb; cbn [backtrack] in Hb;
    destruct (rejected e st g c0) eqn:Hr0;
    try (unfold ret in Hb; inversion Hb; subst; split;
         [assumption | now exists 0%nat]);
    try discriminate.
  destruct (overflow rho1 threshold (S (j c0))); [discriminate |].
  apply bind_Return_inv in Hb. destruct Hb as (s1 & c1 & Hret & Hb).
  apply IH in Hb. destruct Hb as (Hr & q & Ha). split; [assumption |].
  exists (S q). cbn [attempts]. now rewrite (bind_Return _ _ _ Hret).
Qed.

(** *** The outer loop *)

Lemma for_loop_app fuel e l1 l2 : forall st self,
  for_loop lam rho1 rho2 threshold fuel e (l1 ++ l2) st self
  = bind (for_loop lam rho1 rho2 threshold fuel e l1 st)
         (fun r => if snd r then ret r
                   else for_loop lam rho1 rho2 threshold fuel e l2 (fst r))
         self.
Proof.
  induction l1 as [| a l1 IH]; intros st self; cbn [for_loop app].
  - reflexivity.
  - unfold bind.
    destruct (iteration lam rho1 rho2 threshold fuel e st a self)
      as [self1 [[st1 [|]] | x |]]; cbn [fst snd]; try reflexivity.
    rewrite IH. reflexivity.
Qed.

Lemma state_at_inv fuel L p self self_p e st b :
  state_at lam rho1 rho2 threshold fuel L p self
  = (self_p, Return (e, (st, b))) ->
  e = setup self
  /\ exists st0,
      start L self = (self, Return (e, st0))
      /\ for_loop lam rho1 rho2 threshold fuel e (seq 0 p) st0 self
         = (self_p, Return (st, b)).
Proof.
  unfold state_at. intros Hs.
  apply bind_Return_inv in Hs. destruct Hs as (self0 & [e0 st0] & Hst & Hs).
  apply bind_Return_inv in Hs. destruct Hs as (self1 & [st1 b1] & Hf & Hs).
  unfold ret in Hs. cbn [fst snd] in *. inversion Hs; subst.
  pose proof (start_Return_inv _ _ Hst) as (-> & He & _).
  split; [assumption |]. now exists st0.
Qed.

Lemma state_at_intro fuel L p self self_p e st0 st b :
  start L self = (self, Return (e, st0)) ->
  for_loop lam rho1 rho2 threshold fuel e (seq 0 p) st0 self
  = (self_p, Return (st, b)) ->
  state_at lam rho1 rho2 threshold fuel L p self
  = (self_p, Return (e, (st, b))).
Proof.
  intros Hst Hf. unfold state_at.
  rewrite (bind_Return _ _ _ Hst). cbn [fst snd].
  rewrite (bind_Return _ _ _ Hf). reflexivity.
Qed.

(** A run whose first [p] iterations are done goes on with the rest. *)
Lemma run_from_state fuel L p self self_p e st :
  (p <= iterations self)%nat ->
  state_at lam rho1 rho2 threshold fuel L p self
  = (self_p, Return (e, (st, false))) ->
  MC_adaptive_2 fuel self lam L rho1 rho2 threshold
  = bind (for_loop lam rho1 rho2 threshold fuel e
            (seq p (iterations self - p)) st)
         (fun r => finish (fst r)) self_p.
Proof.
  intros Hp Hs. apply state_at_inv in Hs. destruct Hs as (_ & st0 & Hst & Hf).
  unfold MC_adaptive_2, run. rewrite (bind_Return _ _ _ Hst). cbn [fst snd].
  unfold read at 1. unfold bind at 1.
  replace (iterations self) with (p + (iterations self - p))%nat at 1 by lia.
  rewrite seq_app, Nat.add_0_l. unfold bind at 1.
  rewrite for_loop_app. rewrite (bind_Return _ _ _ Hf). cbn [fst snd].
  reflexivity.
Qed.

Lemma iteration_Raise_overflow fuel e st idx self self' :
  iteration lam rho1 rho2 threshold fuel e st idx self
  = (self', Raise OverflowError) ->
  exists self_c g c0,
    propose e st self = (self_c, Return (g, c0))
    /\ backtrack lam rho1 threshold fuel e st g c0 self_c
       = (self', Raise OverflowError).
Proof.
  unfold iteration. intros Hi.
  apply bind_Raise_inv in Hi. destruct Hi as [Hi | (self_c & [g c0] & Hp & Hi)].
  - apply propose_inv in Hi. destruct Hi as [Hi _]. discriminate.
  - cbn [fst snd] in Hi.
    apply bind_Raise_inv in Hi. destruct Hi as [Hi | (s2 & c & Hb & Hi)].
    + now exists self_c, g, c0.
    + exfalso. revert Hi. unfold commit, bind, lift, call.
      destruct (py_div _ _) as [a | x |] eqn:Hd.
      * destruct (calculate_rmse s2) as [r | x |] eqn:Hr; try discriminate.
        apply calculate_rmse_Raise in Hr. destruct Hr; subst x; discriminate.
      * apply py_div_Raise in Hd. subst x. discriminate.
      * discriminate.
Qed.

Lemma for_loop_Raise_overflow fuel e len : forall a st self self',
  for_loop lam rho1 rho2 threshold fuel e (seq a len) st self
  = (self', Raise OverflowError) ->
  exists d st_d self_d,
    (d < len)%nat
    /\ for_loop lam rho1 rho2 threshold fuel e (seq a d) st self
       = (self_d, Return (st_d, false))
    /\ iteration lam rho1 rho2 threshold fuel e st_d (a + d) self_d
       = (self', Raise OverflowError).
Proof.
  induction len as [| len IH]; intros a st self self' Hf; cbn [for_loop seq] in Hf.
  - discriminate.
  - apply bind_Raise_inv in Hf. destruct Hf as [Hf | (s1 & [st1 b1] & Hi & Hf)].
    + exists 0%nat, st, self. rewrite Nat.add_0_r.
      repeat split; [lia | assumption].
    + cbn [fst snd] in Hf. destruct b1; [discriminate |].
      apply IH in Hf. destruct Hf as (d & st_d & self_d & Hd & Hpre & Hit).
      exists (S d), st_d, self_d. repeat split; [lia | |].
      * cbn [for_loop seq]. now rewrite (bind_Return _ _ _ Hi).
      * now rewrite Nat.add_succ_r.
Qed.

(** *** Backtracking overflow (C7, C10) *)


(** C10: a run that ends with [OverflowError] entered some outer iteration
    [p], proposed a candidate and made [q] more attempts; the object it
    leaves is the object of the last attempt: [H1] and [H2] are the split
    of a candidate that the test rejected, not the factors the iteration
    started from. *)
Theorem C10_overflow_leaves_the_rejected_candidate fuel self L self' :
  MC_adaptive_2 fuel self lam L rho1 rho2 threshold
  = (self', Raise OverflowError) ->
  exists p e st self_p self_c g c0 q c,
    (p < iterations self)%nat
    /\ state_at lam rho1 rho2 threshold fuel L p self
       = (self_p, Return (e, (st, false)))
    /\ propose e st self_p = (self_c, Return (g, c0))
    /\ attempts lam rho1 q e st g c0 self_c = (self', Return c)
    /\ rejected e st g c = true
    /\ H1 self' = firstn (m e) (Wk1 c)
    /\ H2 self' = transpose (skipn (m e) (Wk1 c))
    /\ fk1 c = calculate_loss self'.
Proof.
  unfold MC_adaptive_2, run. intros Hrun.
  apply bind_Raise_inv in Hrun.
  destruct Hrun as [Hrun | (self0 & [e st0] & Hst & Hrun)].
  { exfalso. revert Hrun. unfold start, bind, read, call, lift.
    destruct (calculate_rmse self) as [r | x |] eqn:Hr.
    - destruct (py_div 1 L) as [a | x |] eqn:Hd; try discriminate.
      apply py_div_Raise in Hd. subst x. discriminate.
    - apply calculate_rmse_Raise in Hr. destruct Hr; subst x; discriminate.
    - discriminate. }
  pose proof (start_Return_inv _ _ Hst) as (-> & _).
  cbn [fst snd] in Hrun.
  apply bind_Raise_inv in Hrun.
  destruct Hrun as [Hrun | (self1 & budget & Hb & Hrun)]; [discriminate |].
  unfold read in Hb. inversion Hb; subst self1 budget. clear Hb.
  apply bind_Raise_inv in Hrun.
  destruct Hrun as [Hrun | (self2 & [st2 b2] & Hf & Hrun)].
  - apply for_loop_Raise_overflow in Hrun.
    destruct Hrun as (p & st & self_p & Hp & Hpre & Hit).
    rewrite Nat.add_0_l in Hit.
    apply iteration_Raise_overflow in Hit.
    destruct Hit as (self_c & g & c0 & Hprop & Hbt).
    apply backtrack_Raise_overflow in Hbt.
    destruct Hbt as (q & c & Ha & Hrej & _).
    pose proof Hprop as Hpi. apply propose_inv in Hpi.
    destruct Hpi as (_ & Hh0 & _).
    pose proof Ha as Hah. apply attempts_holds in Hah; [| exact Hh0].
    destruct Hah as ((HH1 & HH2 & Hfk) & _).
    exists p, e, st, self_p, self_c, g, c0, q, c.
    repeat split; try assumption.
    now apply state_at_intro with (st0 := st0).
  - exfalso. revert Hrun. unfold finish, bind, read. cbn [fst].
    destruct (i st2); discriminate.
Qed.

(** *** Acceptance and NaN (C8, C9) *)


(** C8: the RMSE of the committed candidate is evaluated (line 251) before
    the test for NaN (line 257).  When outer iteration [p] accepts a
    candidate whose loss is NaN and [calculate_rmse] raises on the object
    that holds it, as scikit-learn does on NaN predictions, the run ends
    with an exception and returns no record: the [break] is not reached. *)
Theorem C8_rmse_is_evaluated_before_the_nan_test
    fuel self L p e st self_p self_c g c0 c self_a x :
  (p < iterations self)%nat ->
  state_at lam rho1 rho2 threshold fuel L p self
  = (self_p, Return (e, (st, false))) ->
  propose e st self_p = (self_c, Return (g, c0)) ->
  backtrack lam rho1 threshold fuel e st g c0 self_c = (self_a, Return c) ->
  is_nan (fk1 c) = true ->
  calculate_rmse self_a = Raise x ->
  exists x',
    MC_adaptive_2 fuel self lam L rho1 rho2 threshold = (self_a, Raise x')
    /\ (x' = x \/ x' = ZeroDivisionError)
    /\ is_nan (calculate_loss self_a) = true.
Proof.
  intros Hp Hs Hprop Hbt Hnan Hr.
  assert (Hloss : is_nan (calculate_loss self_a) = true).
  { pose proof Hprop as Hpi. apply propose_inv in Hpi.
    destruct Hpi as (_ & Hh0 & _).
    pose proof Hbt as Hbi. apply backtrack_Return_inv in Hbi.
    destruct Hbi as (_ & q & Ha).
    apply attempts_holds in Ha; [| exact Hh0].
    destruct Ha as ((_ & _ & Hfk) & _). now rewrite <- Hfk. }
  assert (Hc : exists x', commit lam rho2 e st p c self_a = (self_a, Raise x')
                          /\ (x' = x \/ x' = ZeroDivisionError)).
  { unfold commit, bind, lift, call. rewrite Hr.
    destruct (py_div _ _) as [a | y |] eqn:Hd.
    - exists x. split; [reflexivity | now left].
    - apply py_div_Raise in Hd. subst y. exists ZeroDivisionError.
      split; [reflexivity | now right].
    - unfold py_div in Hd. destruct (_ =? 0); discriminate. }
  destruct Hc as (x' & Hc & Hx'). exists x'. split; [| now split].
  rewrite (@run_from_state fuel L p self self_p e st (Nat.lt_le_incl _ _ Hp) Hs).
  replace (iterations self - p)%nat with (S (iterations self - S p))%nat by lia.
  assert (Hit : iteration lam rho1 rho2 threshold fuel e st p self_p
                = (self_a, Raise x')).
  { unfold iteration. rewrite (bind_Return _ _ _ Hprop). cbn [fst snd].
    rewrite (bind_Return _ _ _ Hbt). exact Hc. }
  assert (Hfl : for_loop lam rho1 rho2 threshold fuel e
                  (seq p (S (iterations self - S p))) st self_p
                = (self_a, Raise x')).
  { cbn [seq for_loop]. now rewrite (bind_Raise _ _ _ Hit). }
  now rewrite (bind_Raise _ _ _ Hfl).
Qed.

End RunStructure.

Lemma C4_iterations_field_is_one_short_witness :
  let out := MC_adaptive_2 (B := ref_backend) 20 ex_4x3 lam_001 1 2 0.5 20 in
  exists r,
    snd out = Return r
    /\ iterations_executed (B := ref_backend) lam_001 2 0.5 20 20 1 ex_4x3
       = 1%nat
    /\ MCAdaptive2Result.iterations r = 0%nat
    /\ length (MCAdaptive2Result.loss_history r) = 2%nat.
Proof.
  cbv zeta.
  destruct (MC_adaptive_2 (B := ref_backend) 20 ex_4x3 lam_001 1 2 0.5 20)
    as [self' [r | x |]] eqn:Hrun; try (vm_compute in Hrun; discriminate).
  destruct (C4_iterations_field_is_one_short (B := ref_backend) _ _ _ _ _ _ _ Hrun)
    as (Hx & Hl & _).
  assert (Hone : iterations_executed (B := ref_backend) lam_001 2 0.5 20 20 1 ex_4x3
                 = 1%nat) by (vm_compute; reflexivity).
  exists r. rewrite Hone in Hx, Hl. repeat split; try assumption.
  now injection Hx.
Defined.


Lemma C10_overflow_leaves_the_rejected_candidate_witness :
  let out := MC_adaptive_2 (B := ref_backend) 20 (ex_1x1 6 3) 0.5 0.0625 2 0.5 2 in
  snd out = Raise OverflowError
  /\ H1 (ex_1x1 6 3) = [[-1]]
  /\ exists x c,
      H1 (fst out) = [[x]] /\ (3 <? x) = true
      /\ H1 (fst out) = firstn 1 (Wk1 c)
      /\ H2 (fst out) = transpose (skipn 1 (Wk1 c)).
Proof.
  cbv zeta.
  destruct (MC_adaptive_2 (B := ref_backend) 20 (ex_1x1 6 3) 0.5 0.0625 2 0.5 2)
    as [self' out] eqn:Hrun.
  assert (Hout : out = Raise OverflowError)
    by (vm_compute in Hrun; now inversion Hrun).
  subst out. cbn [fst snd].
  destruct (C10_overflow_leaves_the_rejected_candidate (B := ref_backend) _ _ _ _ _ _ _ Hrun)
    as (p & e & st & self_p & self_c & g & c0 & q & c
        & _ & Hs & _ & _ & _ & HH1 & HH2 & _).
  apply state_at_inv in Hs. destruct Hs as (He & _).
  assert (Hm : m e = 1%nat) by (subst e; reflexivity).
  rewrite Hm in HH1, HH2.
  split; [reflexivity |]. split; [reflexivity |].
  assert (Hv : exists x, H1 self' = [[x]] /\ (3 <? x) = true).
  { vm_compute in Hrun. inversion Hrun; subst self'.
    eexists. split; [reflexivity | vm_compute; reflexivity]. }
  destruct Hv as (x & Hx & H3). exists x, c. now repeat split.
Defined.

(** ** Shapes (C6) *)

Unset Implicit Arguments.

Section Shapes.

Lemma has_shape_spec r c (X : matrix) :
  has_shape r c X = true
  <-> length X = r /\ Forall (fun row => length row = c) X.
Proof.
  unfold has_shape. rewrite andb_true_iff, Nat.eqb_eq, forallb_forall, Forall_forall.
  split; intros [Hl Hr]; (split; [assumption |]); intros row Hin;
    specialize (Hr row Hin); now apply Nat.eqb_eq.
Qed.

Lemma length_map2 {X Y Z : Type} (f : X -> Y -> Z) xs ys :
  length (map2 f xs ys) = Nat.min (length xs) (length ys).
Proof. unfold map2. now rewrite length_map, length_combine. Qed.

Lemma has_shape_map2 (f : float -> float -> float) r c X Y :
  has_shape r c X = true -> has_shape r c Y = true ->
  has_shape r c (map2 (map2 f) X Y) = true.
Proof.
  rewrite !has_shape_spec. intros [HlX HrX] [HlY HrY]. split.
  - rewrite length_map2. lia.
  - unfold map2 at 1. apply Forall_forall. intros row Hin.
    apply in_map_iff in Hin. destruct Hin as ([u v] & <- & Hin).
    cbn [fst snd]. rewrite length_map2.
    pose proof (in_combine_l _ _ _ _ Hin) as Hu.
    pose proof (in_combine_r _ _ _ _ Hin) as Hv.
    rewrite Forall_forall in HrX, HrY.
    rewrite (HrX _ Hu), (HrY _ Hv). lia.
Qed.

Lemma has_shape_smul s r c X :
  has_shape r c X = true -> has_shape r c (smul s X) = true.
Proof.
  rewrite !has_shape_spec. unfold smul. intros [Hl Hr]. split.
  - now rewrite length_map.
  - apply Forall_forall. intros row Hin. apply in_map_iff in Hin.
    destruct Hin as (u & <- & Hin). rewrite length_map.
    rewrite Forall_forall in Hr. now apply Hr.
Qed.

Lemma ncols_has_shape r c X :
  has_shape r c X = true -> (1 <= r)%nat -> ncols X = c.
Proof.
  rewrite has_shape_spec. intros [Hl Hr] Hpos.
  destruct X as [| row X]; cbn in *; [lia |]. now inversion Hr.
Qed.

Lemma has_shape_transpose r c X :
  has_shape r c X = true -> (1 <= r)%nat -> has_shape c r (transpose X) = true.
Proof.
  intros HX Hpos. rewrite has_shape_spec. unfold transpose.
  rewrite (ncols_has_shape r c X HX Hpos). apply has_shape_spec in HX.
  destruct HX as [Hl _]. split.
  - now rewrite length_map, length_seq.
  - apply Forall_forall. intros row Hin. apply in_map_iff in Hin.
    destruct Hin as (u & <- & _). unfold column. now rewrite length_map.
Qed.

Lemma has_shape_dot r c c' d X Y :
  has_shape r c X = true -> has_shape c' d Y = true -> (1 <= c')%nat ->
  has_shape r d (dot X Y) = true.
Proof.
  intros HX HY Hpos. rewrite has_shape_spec. unfold dot.
  rewrite (ncols_has_shape c' d Y HY Hpos). apply has_shape_spec in HX.
  destruct HX as [Hl _]. split.
  - now rewrite length_map.
  - apply Forall_forall. intros row Hin. apply in_map_iff in Hin.
    destruct Hin as (u & <- & _). now rewrite length_map, length_seq.
Qed.

Lemma has_shape_vstack r r' c X Y :
  has_shape r c X = true -> has_shape r' c Y = true ->
  has_shape (r + r') c (vstack X Y) = true.
Proof.
  rewrite !has_shape_spec. unfold vstack. intros [HlX HrX] [HlY HrY]. split.
  - rewrite length_app. lia.
  - apply Forall_app. now split.
Qed.

Lemma has_shape_firstn r c d X :
  has_shape (r + d) c X = true -> has_shape r c (firstn r X) = true.
Proof.
  rewrite !has_shape_spec. intros [Hl Hr]. split.
  - rewrite length_firstn. lia.
  - rewrite <- (firstn_skipn r X) in Hr. apply Forall_app in Hr. tauto.
Qed.

Lemma has_shape_skipn r c d X :
  has_shape (r + d) c X = true -> has_shape d c (skipn r X) = true.
Proof.
  rewrite !has_shape_spec. intros [Hl Hr]. split.
  - rewrite length_skipn. lia.
  - rewrite <- (firstn_skipn r X) in Hr. apply Forall_app in Hr. tauto.
Qed.

Lemma nth_column j (X : matrix) q :
  (q < length X)%nat -> nth q (column j X) 0 = nth j (nth q X []) 0.
Proof.
  intros Hq. unfold column.
  rewrite (nth_indep _ 0 (nth j [] 0)) by now rewrite length_map. 
  now rewrite (map_nth (fun r => nth j r 0) X []).
Qed.

Lemma transpose_involutive r c X :
  has_shape r c X = true -> (1 <= r)%nat -> (1 <= c)%nat ->
  transpose (transpose X) = X.
Proof.
  intros HX Hr Hc.
  pose proof (has_shape_transpose r c X HX Hr) as HT.
  pose proof (has_shape_transpose c r _ HT Hc) as HTT.
  apply has_shape_spec in HX. destruct HX as [Hl Hrows].
  apply has_shape_spec in HTT. destruct HTT as [Hl' Hrows'].
  apply nth_ext with (d := []) (d' := []); [lia |].
  intros p Hp. rewrite Hl' in Hp.
  rewrite Forall_forall in Hrows, Hrows'.
  assert (Hlen1 : length (nth p (transpose (transpose X)) []) = c)
    by (apply Hrows', nth_In; lia).
  assert (Hlen2 : length (nth p X []) = c) by (apply Hrows, nth_In; lia).
  apply nth_ext with (d := 0) (d' := 0); [lia |].
  intros q Hq. rewrite Hlen1 in Hq.
  unfold transpose at 1.
  rewrite (ncols_has_shape c r _ HT Hc).
  rewrite (nth_indep _ [] (column 0 (transpose X)))
    by now rewrite length_map, length_seq.
  rewrite (map_nth (fun j => column j (transpose X)) (seq 0 r) 0%nat).
  rewrite seq_nth by lia. cbn [Nat.add].
  rewrite nth_column.
  2:{ apply has_shape_spec in HT. destruct HT as [-> _]. lia. }
  unfold transpose. rewrite (ncols_has_shape r c X); [| | lia].
  2:{ apply has_shape_spec. split; [assumption | now apply Forall_forall]. }
  rewrite (nth_indep _ [] (column 0 X)) by now rewrite length_map, length_seq.
  rewrite (map_nth (fun j => column j X) (seq 0 c) 0%nat).
  rewrite seq_nth by lia. cbn [Nat.add].
  apply nth_column. lia.
Qed.


Context {B : Backend}.

Lemma wf_inv self r c :
  wf self = true -> shape (A self) = (r, c) ->
  (1 <= r)%nat /\ (1 <= c)%nat /\ (1 <= k self)%nat
  /\ has_shape r c (A self) = true /\ has_shape r c (mask self) = true
  /\ has_shape r (k self) (H1 self) = true
  /\ has_shape (k self) c (H2 self) = true.
Proof.
  unfold wf. intros Hwf Hs. rewrite Hs in Hwf.
  repeat (apply andb_true_iff in Hwf; destruct Hwf as [Hwf ?]).
  repeat match goal with H : (_ <=? _)%nat = true |- _ => apply Nat.leb_le in H end.
  repeat split; assumption.
Qed.

Lemma gradient_shape self r c :
  wf self = true -> shape (A self) = (r, c) ->
  has_shape (r + c) (k self) (gradient self) = true.
Proof.
  intros Hwf Hs.
  destruct (wf_inv self r c Hwf Hs) as (Hr & Hc & Hk & HA & Hm & HH1 & HH2).
  pose proof (has_shape_transpose _ _ _ HH2 Hk) as HH2T.
  pose proof (has_shape_transpose _ _ _ HH1 Hr) as HH1T.
  pose proof (has_shape_transpose _ _ _ HA Hr) as HAT.
  pose proof (has_shape_transpose _ _ _ Hm Hr) as HmT.
  unfold gradient. apply has_shape_vstack.
  - apply has_shape_map2; [| now apply has_shape_smul].
    apply has_shape_dot with (c := c) (c' := c); [| assumption | assumption].
    apply has_shape_map2; [assumption |].
    apply has_shape_map2; [| assumption].
    now apply has_shape_dot with (c := k self) (c' := k self).
  - apply has_shape_map2; [| now apply has_shape_smul].
    apply has_shape_dot with (c := r) (c' := r); [| assumption | assumption].
    apply has_shape_map2; [assumption |].
    apply has_shape_map2; [| assumption].
    now apply has_shape_dot with (c := k self) (c' := k self).
Qed.

Lemma step_shape e a W g W1 r c :
  step e a W g = Return W1 ->
  has_shape r c W = true -> has_shape r c g = true ->
  has_shape r c W1 = true.
Proof.
  unfold step. rewrite !nthr_3. cbn [obind]. intros Hs HW Hg.
  inversion Hs; subst W1. apply has_shape_smul. unfold step_grad.
  apply has_shape_map2; now apply has_shape_smul.
Qed.

Lemma retry_step_shape e a W g W1 r c :
  retry_step e a W g = Return W1 ->
  has_shape r c W = true -> has_shape r c g = true ->
  has_shape r c W1 = true.
Proof.
  unfold retry_step. rewrite !nthr_3. cbn [obind]. intros Hs HW Hg.
  inversion Hs; subst W1. apply has_shape_smul. unfold step_grad.
  apply has_shape_map2; now apply has_shape_smul.
Qed.

(** Splitting a stacked matrix of the right shape into the object *)
Lemma split_shaped e self W0 W :
  shaped e self W0 ->
  has_shape (m e + n e) (k self) W = true ->
  shaped e (set_H2 (transpose (skipn (m e) W)) (set_H1 (firstn (m e) W) self)) W.
Proof.
  intros (Hwf & Hs & _) HW.
  destruct (wf_inv self _ _ Hwf Hs) as (Hr & Hc & Hk & HA & Hm & HH1 & HH2).
  pose proof (has_shape_firstn _ _ _ _ HW) as HF.
  pose proof (has_shape_transpose _ _ _ (has_shape_skipn _ _ _ _ HW) Hc) as HS.
  unfold shaped. cbn [A k H1 H2 set_H1 set_H2].
  repeat split; try assumption.
  revert Hwf. unfold wf. cbn [A k H1 H2 mask test_matrix test_mask set_H1 set_H2].
  rewrite Hs. intros Hwf.
  repeat (apply andb_true_iff in Hwf; destruct Hwf as [Hwf ?]).
  repeat match goal with Hb : _ = true |- _ => rewrite Hb end.
  reflexivity.
Qed.


Variables (lam rho1 rho2 : float) (threshold : nat).

(** What every part of the run keeps: the rank, and an object that is
    well-shaped around some stacked matrix. *)
Lemma retry_shaped e st g c self self' o W0 :
  shaped e self W0 ->
  has_shape (m e + n e) (k self) (Wk st) = true ->
  has_shape (m e + n e) (k self) g = true ->
  retry lam rho1 e st g c self = (self', o) ->
  k self' = k self
  /\ (exists W', shaped e self' W')
  /\ match o with
     | Return c' => shaped e self' (Wk1 c')
     | _ => True
     end.
Proof.
  intros Hsh HW Hg. unfold retry, bind, lift, split, assign, read, ret.
  destruct (py_div _ _) as [a | x |].
  - destruct (retry_step _ _ _ _) as [W | x |] eqn:Hs.
    + intros Hr. inversion Hr; subst. cbn [Wk1].
      pose proof (split_shaped e self W0 W Hsh
                    (retry_step_shape _ _ _ _ _ _ _ Hs HW Hg)) as Hnew.
      split; [reflexivity |]. split; [now exists W | assumption].
    + intros Hr. inversion Hr; subst. split; [reflexivity |].
      split; [now exists W0 | exact I].
    + intros Hr. inversion Hr; subst. split; [reflexivity |].
      split; [now exists W0 | exact I].
  - intros Hr. inversion Hr; subst. split; [reflexivity |].
    split; [now exists W0 | exact I].
  - intros Hr. inversion Hr; subst. split; [reflexivity |].
    split; [now exists W0 | exact I].
Qed.

Lemma propose_shaped e st self self' o :
  shaped e self (Wk st) ->
  propose e st self = (self', o) ->
  k self' = k self
  /\ (exists W', shaped e self' W')
  /\ match o with
     | Return (g, c0) =>
         shaped e self' (Wk1 c0)
         /\ has_shape (m e + n e) (k self) g = true
     | _ => True
     end.
Proof.
  intros Hsh. pose proof Hsh as (Hwf & Hs & _ & _ & HW & _).
  pose proof (gradient_shape self _ _ Hwf Hs) as Hg.
  unfold propose, bind, lift, split, assign, read, ret.
  destruct (step _ _ _ _) as [W | x |] eqn:Hst.
  - intros Hr. inversion Hr; subst. cbn [Wk1].
    pose proof (split_shaped e self (Wk st) W Hsh
                  (step_shape _ _ _ _ _ _ _ Hst HW Hg)) as Hnew.
    split; [reflexivity |]. split; [now exists W | now split].
  - intros Hr. inversion Hr; subst. split; [reflexivity |].
    split; [now exists (Wk st) | exact I].
  - intros Hr. inversion Hr; subst. split; [reflexivity |].
    split; [now exists (Wk st) | exact I].
Qed.

Lemma backtrack_shaped e st g fuel : forall c self self' o,
  shaped e self (Wk1 c) ->
  has_shape (m e + n e) (k self) (Wk st) = true ->
  has_shape (m e + n e) (k self) g = true ->
  backtrack lam rho1 threshold fuel e st g c self = (self', o) ->
  k self' = k self
  /\ (exists W', shaped e self' W')
  /\ match o with
     | Return c' => shaped e self' (Wk1 c')
     | _ => True
     end.
Proof.
  induction fuel as [| fuel IH]; intros c self self' o Hsh HW Hg Hb;
    cbn [backtrack] in Hb; destruct (rejected e st g c).
  - unfold lift in Hb. inversion Hb; subst. split; [reflexivity |].
    split; [now exists (Wk1 c) | exact I].
  - unfold ret in Hb. inversion Hb; subst. split; [reflexivity |].
    split; [now exists (Wk1 c) | assumption].
  - destruct (overflow rho1 threshold (S (j c))).
    + unfold raise in Hb. inversion Hb; subst. split; [reflexivity |].
      split; [now exists (Wk1 c) | exact I].
    + unfold bind in Hb.
      destruct (retry lam rho1 e st g c self) as [self1 o1] eqn:Hr.
      eapply retry_shaped in Hr; [| exact Hsh | exact HW | exact Hg].
      destruct Hr as (Hk & Hex & Ho1).
      destruct o1 as [c1 | x |].
      * rewrite <- Hk in HW, Hg.
        destruct (IH _ _ _ _ Ho1 HW Hg Hb) as (Hk' & Hex' & Ho).
        split; [congruence |]. now split.
      * inversion Hb; subst. split; [assumption |]. now split.
      * inversion Hb; subst. split; [assumption |]. now split.
  - unfold ret in Hb. inversion Hb; subst. split; [reflexivity |].
    split; [now exists (Wk1 c) | assumption].
Qed.

Lemma commit_same_object e st idx c self self' o :
  commit lam rho2 e st idx c self = (self', o) ->
  self' = self
  /\ match o with
     | Return (st', _) => Wk st' = Wk1 c
     | _ => True
     end.
Proof.
  unfold commit, bind, lift, call, ret.
  destruct (py_div _ _) as [a | x |];
    [destruct (calculate_rmse self) as [r | x |] | |];
    intros Hc; inversion Hc; subst; now split.
Qed.

Lemma iteration_shaped fuel e st idx self self' o :
  shaped e self (Wk st) ->
  iteration lam rho1 rho2 threshold fuel e st idx self = (self', o) ->
  k self' = k self
  /\ (exists W', shaped e self' W')
  /\ match o with
     | Return (st', _) => shaped e self' (Wk st')
     | _ => True
     end.
Proof.
  intros Hsh. pose proof Hsh as (_ & _ & _ & _ & HW & _).
  unfold iteration, bind.
  destruct (propose e st self) as [self1 o1] eqn:Hp.
  eapply propose_shaped in Hp; [| exact Hsh]. destruct Hp as (Hk1 & Hex1 & Ho1).
  destruct o1 as [[g c0] | x |]; cbn [fst snd].
  - destruct Ho1 as (Hsh0 & Hg).
    destruct (backtrack lam rho1 threshold fuel e st g c0 self1)
      as [self2 o2] eqn:Hb.
    rewrite <- Hk1 in HW, Hg.
    eapply backtrack_shaped in Hb; [| exact Hsh0 | exact HW | exact Hg].
    destruct Hb as (Hk2 & Hex2 & Ho2).
    destruct o2 as [c | x |].
    + intros Hc. apply commit_same_object in Hc. destruct Hc as (-> & Ho).
      split; [congruence |]. split; [assumption |].
      destruct o as [[st' b] | x |]; [| exact I | exact I].
      now rewrite Ho.
    + intros Hc. inversion Hc; subst. split; [congruence |]. now split.
    + intros Hc. inversion Hc; subst. split; [congruence |]. now split.
  - intros Hc. inversion Hc; subst. split; [assumption |]. now split.
  - intros Hc. inversion Hc; subst. split; [assumption |]. now split.
Qed.

Lemma for_loop_shaped fuel e idxs : forall st self self' o,
  shaped e self (Wk st) ->
  for_loop lam rho1 rho2 threshold fuel e idxs st self = (self', o) ->
  k self' = k self
  /\ (exists W', shaped e self' W')
  /\ match o with
     | Return (st', _) => shaped e self' (Wk st')
     | _ => True
     end.
Proof.
  induction idxs as [| idx rest IH]; intros st self self' o Hsh Hf;
    cbn [for_loop] in Hf.
  - unfold ret in Hf. inversion Hf; subst. split; [reflexivity |].
    split; [now exists (Wk st) | assumption].
  - unfold bind in Hf.
    destruct (iteration lam rho1 rho2 threshold fuel e st idx self)
      as [self1 o1] eqn:Hi.
    eapply iteration_shaped in Hi; [| exact Hsh]. destruct Hi as (Hk & Hex & Ho1).
    destruct o1 as [[st1 b1] | x |]; cbn [fst snd] in Hf.
    + destruct b1.
      * unfold ret in Hf. inversion Hf; subst. split; [assumption |]. now split.
      * destruct (IH _ _ _ _ Ho1 Hf) as (Hk' & Hex' & Ho).
        split; [congruence |]. now split.
    + inversion Hf; subst. split; [assumption |]. now split.
    + inversion Hf; subst. split; [assumption |]. now split.
Qed.

Lemma start_shaped L self self' e st :
  wf self = true ->
  start L self = (self', Return (e, st)) ->
  self' = self /\ shaped e self (Wk st)
  /\ (m e, n e) = shape (A self).
Proof.
  intros Hwf Hs. apply start_Return_inv in Hs.
  destruct Hs as (-> & He & r & a & _ & _ & Hst).
  assert (Hmn : (m e, n e) = shape (A self)).
  { subst e. unfold setup. now destruct (shape (A self)). }
  split; [reflexivity |]. split; [| assumption].
  destruct (wf_inv self _ _ Hwf (eq_sym Hmn)) as (Hr & Hc & Hk & HA & Hm & HH1 & HH2).
  pose proof (has_shape_transpose _ _ _ HH2 Hk) as HT.
  assert (Hlen : length (H1 self) = m e)
    by (apply has_shape_spec in HH1; tauto).
  subst st. cbn [Wk]. unfold shaped, vstack.
  repeat split; try assumption; try (now symmetry).
  - now apply has_shape_vstack.
  - rewrite <- Hlen, firstn_app, Nat.sub_diag, firstn_all. cbn.
    now rewrite app_nil_r.
  - rewrite <- Hlen, skipn_app, Nat.sub_diag, skipn_all. cbn.
    symmetry. now apply transpose_involutive with (r := k self) (c := n e).
Qed.


Lemma start_same_object L self self' (o : outcome (env * locals)) :
  start L self = (self', o) -> self' = self.
Proof.
  unfold start, bind, read, call, lift, ret.
  destruct (calculate_rmse self) as [r | x |];
    [destruct (py_div 1 L) as [a | x |] | |];
    intros Hs; now inversion Hs.
Qed.

(** C6, as amended: on a well-shaped object, at the end of every number
    [p] of outer iterations [H1] is m x k, [H2] is k x n and the stacked
    state [W] is (m + n) x k, [H1] being the first m rows of [W] and [H2]
    the remaining n rows, transposed; and however the run ends, the
    object's [H1] is m x k and its [H2] is k x n, and a completed matrix is
    m x n. *)
Theorem C6_shapes_throughout fuel self L :
  wf self = true ->
  (forall p self_p e st b,
      state_at lam rho1 rho2 threshold fuel L p self
      = (self_p, Return (e, (st, b))) ->
      (m e, n e) = shape (A self)
      /\ has_shape (m e) (k self) (H1 self_p) = true
      /\ has_shape (k self) (n e) (H2 self_p) = true
      /\ has_shape (m e + n e) (k self) (Wk st) = true
      /\ H1 self_p = firstn (m e) (Wk st)
      /\ H2 self_p = transpose (skipn (m e) (Wk st)))
  /\ (forall self' o,
      MC_adaptive_2 fuel self lam L rho1 rho2 threshold = (self', o) ->
      has_shape (nrows (A self)) (k self) (H1 self') = true
      /\ has_shape (k self) (ncols (A self)) (H2 self') = true
      /\ match o with
         | Return r =>
             has_shape (nrows (A self)) (ncols (A self))
                       (MCAdaptive2Result.completed_matrix r) = true
         | _ => True
         end).
Proof.
  intros Hwf. split.
  - intros p self_p e st b Hs. apply state_at_inv in Hs.
    destruct Hs as (_ & st0 & Hst & Hf).
    apply start_shaped in Hst; [| assumption].
    destruct Hst as (_ & Hsh0 & Hmn).
    eapply for_loop_shaped in Hf; [| exact Hsh0].
    destruct Hf as (Hk & _ & (_ & _ & HH1 & HH2 & HW & Hf1 & Hf2)).
    rewrite Hk in HH1, HH2, HW. now repeat split.
  - intros self' o. unfold MC_adaptive_2, run, bind.
    destruct (start L self) as [self0 o0] eqn:Hst.
    pose proof (start_same_object _ _ _ _ Hst) as ->.
    assert (Hbase : has_shape (nrows (A self)) (k self) (H1 self) = true
                    /\ has_shape (k self) (ncols (A self)) (H2 self) = true).
    { destruct (wf_inv self _ _ Hwf eq_refl) as (_ & _ & _ & _ & _ & HH1 & HH2).
      now split. }
    destruct o0 as [[e st0] | x |]; cbn [fst snd].
    + apply start_shaped in Hst; [| assumption].
      destruct Hst as (_ & Hsh0 & Hmn). unfold shape in Hmn.
      inversion Hmn as [[Hm Hn]]. unfold read at 1.
      destruct (for_loop lam rho1 rho2 threshold fuel e
                  (seq 0 (iterations self)) st0 self) as [self2 o2] eqn:Hf.
      eapply for_loop_shaped in Hf; [| exact Hsh0].
      destruct Hf as (Hk & (W' & Hwf2 & Hs2 & HH1 & HH2 & _) & _).
      rewrite Hk, ?Hm, ?Hn in HH1, HH2.
      assert (Hk1 : (1 <= k self)%nat).
      { destruct (wf_inv self _ _ Hwf eq_refl) as (_ & _ & Hk1 & _). exact Hk1. }
      destruct o2 as [[st2 b2] | x |]; cbn [fst].
      * unfold finish, bind, read. destruct (i st2) as [idx |].
        -- unfold ret. intros Hr. inversion Hr; subst. cbn.
           repeat split; try assumption.
           now apply has_shape_dot with (c := k self) (c' := k self).
        -- unfold raise. intros Hr. inversion Hr; subst. now repeat split.
      * intros Hr. inversion Hr; subst. now repeat split.
      * intros Hr. inversion Hr; subst. now repeat split.
    + intros Hr. inversion Hr; subst. destruct Hbase. now repeat split.
    + intros Hr. inversion Hr; subst. destruct Hbase. now repeat split.
Qed.

End Shapes.

Lemma C6_shapes_throughout_witness :
  let self := ex_1x2 2 in
  (forall p self_p e st b,
      state_at (B := ref_backend) 0.5 2 0.5 20 20 1 p self
      = (self_p, Return (e, (st, b))) ->
      (m e, n e) = shape (A self)
      /\ has_shape (m e) (k self) (H1 self_p) = true
      /\ has_shape (k self) (n e) (H2 self_p) = true
      /\ has_shape (m e + n e) (k self) (Wk st) = true
      /\ H1 self_p = firstn (m e) (Wk st)
      /\ H2 self_p = transpose (skipn (m e) (Wk st)))
  /\ (forall self' o,
      MC_adaptive_2 (B := ref_backend) 20 self 0.5 1 2 0.5 20 = (self', o) ->
      has_shape (nrows (A self)) (k self) (H1 self') = true
      /\ has_shape (k self) (ncols (A self)) (H2 self') = true
      /\ match o with
         | Return r =>
             has_shape (nrows (A self)) (ncols (A self))
                       (MCAdaptive2Result.completed_matrix r) = true
         | _ => True
         end).
Proof.
  apply (C6_shapes_throughout (B := ref_backend) 0.5 2 0.5 20 20 (ex_1x2 2) 1).
  reflexivity.
Defined.

(** C6, as the specification words it, fails: for a 1 x 2 matrix and rank 1
    the stacked state is 3 x 1, not (m + k) x k = 2 x 1, and [H2] is made
    of the 2 rows that follow the first. *)
Lemma C6_stacked_state_has_m_plus_n_rows :
  let self := ex_1x2 2 in
  exists e st,
    start (B := ref_backend) 1 self = (self, Return (e, st))
    /\ (m e, n e, k self) = (1, 2, 1)%nat
    /\ shape (Wk st) = (3, 1)%nat
    /\ ((m e + k self)%nat, k self) = (2, 1)%nat
    /\ length (skipn (m e) (Wk st)) = 2%nat
    /\ H2 self = transpose (skipn (m e) (Wk st)).
Proof.
  cbv zeta. do 2 eexists. split; [vm_compute; reflexivity |].
  repeat split.
Qed.

(** ** Runs that meet NaN, that never stop, whose loss grows (C7, C8, C9) *)

(** The 1 x 1 problem A = [[2^600]]: the norm of [A] overflows, the first
    candidate is NaN and is accepted, and the RMSE of the NaN predictions
    raises [ValueError]. *)
Lemma C8_rmse_is_evaluated_before_the_nan_test_witness :
  exists self_a,
    (exists x',
        MC_adaptive_2 (B := ref_backend) 20 (ex_1x1 0x1p+600 1) 0.5 1 2 0.5 20
        = (self_a, Raise x')
        /\ (x' = ValueError \/ x' = ZeroDivisionError)
        /\ is_nan (calculate_loss (B := ref_backend) self_a) = true)
    /\ MC_adaptive_2 (B := ref_backend) 20 (ex_1x1 0x1p+600 1) 0.5 1 2 0.5 20
       = (self_a, Raise ValueError).
Proof.
  eexists. split.
  - eapply C8_rmse_is_evaluated_before_the_nan_test with (p := 0%nat).
    + vm_compute. lia.
    + vm_compute. reflexivity.
    + vm_compute. reflexivity.
    + vm_compute. reflexivity.
    + vm_compute. reflexivity.
    + vm_compute. reflexivity.
  - vm_compute. reflexivity.
Defined.




Section NeverEnds.

Context {B : Backend}.
Variables (lam rho1 : float) (threshold : nat).
Variables (e : env) (st : locals) (g : matrix) (self_1 : MatrixCompletion).
Variable cj : nat -> candidate.

Hypothesis cj_j : forall j0, j (cj j0) = j0.
Hypothesis cj_rejected : forall j0, rejected e st g (cj j0) = true.
Hypothesis cj_guard : forall j0, overflow rho1 threshold (S j0) = false.
Hypothesis cj_retry : forall j0,
  retry lam rho1 e st g (cj j0) self_1 = (self_1, Return (cj (S j0))).


End NeverEnds.




(** * Further properties of the run *)

Section Termination.

Context {B : Backend}.

Variables (lam rho1 rho2 : float) (threshold : nat).

Lemma commit_not_Timeout e st idx c self self' :
  commit lam rho2 e st idx c self <> (self', Timeout).
Proof.
  unfold commit, bind, lift, call, ret, py_div, calculate_rmse.
  destruct (_ =? 0); [discriminate |].
  destruct (nonzero (test_mask self)); [discriminate |].
  destruct (mean_squared_error _ _); discriminate.
Qed.

(** With [d] tests left before the threshold, fuel [d] is enough, and more
    fuel changes nothing. *)
Lemma backtrack_fuel e st g d : forall c self fuel fuel',
  (j c + d = threshold)%nat -> (1 <= d)%nat ->
  (d <= fuel)%nat -> (d <= fuel')%nat ->
  backtrack lam rho1 threshold fuel e st g c self
  = backtrack lam rho1 threshold fuel' e st g c self
  /\ snd (backtrack lam rho1 threshold fuel e st g c self) <> Timeout.
Proof.
  induction d as [| d IH]; intros c self fuel fuel' Hj Hd Hf Hf'; [lia |].
  destruct fuel as [| fuel]; [lia |]. destruct fuel' as [| fuel']; [lia |].
  cbn [backtrack]. destruct (rejected e st g c); [| split; [reflexivity | discriminate]].
  destruct (overflow rho1 threshold (S (j c))) eqn:Hg;
    [split; [reflexivity | discriminate] |].
  unfold bind. destruct (retry lam rho1 e st g c self) as [self1 o1] eqn:Hr.
  apply retry_inv in Hr. destruct o1 as [c1 | x |].
  - destruct Hr as (_ & Hj1 & _).
    assert (Hne : S (j c) <> threshold).
    { intros Heq. unfold overflow in Hg. rewrite Heq, Nat.eqb_refl, orb_true_r in Hg.
      discriminate. }
    apply IH; lia.
  - split; [reflexivity | discriminate].
  - destruct Hr.
Qed.

Lemma iteration_fuel fuel fuel' e st idx self :
  (1 <= threshold)%nat -> (threshold <= fuel)%nat -> (threshold <= fuel')%nat ->
  iteration lam rho1 rho2 threshold fuel e st idx self
  = iteration lam rho1 rho2 threshold fuel' e st idx self
  /\ snd (iteration lam rho1 rho2 threshold fuel e st idx self) <> Timeout.
Proof.
  intros Ht Hf Hf'. unfold iteration, bind.
  destruct (propose e st self) as [self1 o1] eqn:Hp.
  apply propose_inv in Hp. destruct o1 as [[g c0] | x |]; cbn [fst snd].
  - destruct Hp as (_ & _ & Hj0 & _).
    destruct (backtrack_fuel e st g threshold c0 self1 fuel fuel') as [Heq Hnt];
      try lia.
    rewrite <- Heq.
    destruct (backtrack lam rho1 threshold fuel e st g c0 self1) as [self2 [c | x |]].
    + split; [reflexivity |].
      destruct (commit lam rho2 e st idx c self2) as [self3 o3] eqn:Hc.
      intros Ho. cbn [snd] in Ho. subst o3.
      now apply commit_not_Timeout in Hc.
    + split; [reflexivity | discriminate].
    + now cbn [snd] in Hnt.
  - split; [reflexivity | discriminate].
  - destruct Hp.
Qed.

Lemma for_loop_fuel fuel fuel' e idxs : forall st self,
  (1 <= threshold)%nat -> (threshold <= fuel)%nat -> (threshold <= fuel')%nat ->
  for_loop lam rho1 rho2 threshold fuel e idxs st self
  = for_loop lam rho1 rho2 threshold fuel' e idxs st self
  /\ snd (for_loop lam rho1 rho2 threshold fuel e idxs st self) <> Timeout.
Proof.
  induction idxs as [| idx rest IH]; intros st self Ht Hf Hf'; cbn [for_loop].
  - split; [reflexivity | discriminate].
  - unfold bind.
    destruct (iteration_fuel fuel fuel' e st idx self Ht Hf Hf') as [Heq Hnt].
    rewrite <- Heq.
    destruct (iteration lam rho1 rho2 threshold fuel e st idx self)
      as [self1 [[st1 [|]] | x |]]; cbn [fst snd].
    + split; [reflexivity | discriminate].
    + now apply IH.
    + split; [reflexivity | discriminate].
    + now cbn [snd] in Hnt.
Qed.

(** X1: with a threshold of at least 1 the run terminates: fuel for
    [threshold] tests of the sub-loop is enough, the outcome is a record or
    an exception, and it is the same for any larger fuel. *)
Theorem X1_run_terminates fuel fuel' self L :
  (1 <= threshold)%nat -> (threshold <= fuel)%nat -> (threshold <= fuel')%nat ->
  MC_adaptive_2 fuel self lam L rho1 rho2 threshold
  = MC_adaptive_2 fuel' self lam L rho1 rho2 threshold
  /\ snd (MC_adaptive_2 fuel self lam L rho1 rho2 threshold) <> Timeout.
Proof.
  intros Ht Hf Hf'. unfold MC_adaptive_2, run, bind.
  destruct (start L self) as [self0 [[e st0] | x |]] eqn:Hs; cbn [fst snd].
  - unfold read. cbv beta iota.
    destruct (for_loop_fuel fuel fuel' e (seq 0 (iterations self0)) st0 self0
                Ht Hf Hf') as [Heq Hnt].
    rewrite <- Heq.
    destruct (for_loop lam rho1 rho2 threshold fuel e (seq 0 (iterations self0))
                st0 self0) as [self1 [[st1 b1] | x |]]; cbn [fst snd].
    + split; [reflexivity |]. unfold finish, bind, read.
      destruct (i st1); discriminate.
    + split; [reflexivity | discriminate].
    + now cbn [snd] in Hnt.
  - split; [reflexivity | discriminate].
  - exfalso. revert Hs. unfold start, bind, read, call, lift, py_div, calculate_rmse.
    destruct (nonzero (test_mask self)); [discriminate |].
    destruct (mean_squared_error _ _); [| discriminate].
    destruct (L =? 0); discriminate.
Qed.

End Termination.

Lemma X1_run_terminates_witness :
  MC_adaptive_2 (B := ref_backend) 3 (ex_1x1 6 3) 0.5 0.0625 2 0.5 3
  = MC_adaptive_2 (B := ref_backend) 50 (ex_1x1 6 3) 0.5 0.0625 2 0.5 3
  /\ snd (MC_adaptive_2 (B := ref_backend) 3 (ex_1x1 6 3) 0.5 0.0625 2 0.5 3)
     <> Timeout.
Proof.
  apply (X1_run_terminates (B := ref_backend) 0.5 2 0.5 3 3 50 (ex_1x1 6 3) 0.0625);
    lia.
Defined.

Section StepSize.

Context {B : Backend}.

Variables (lam rho1 rho2 : float) (threshold : nat).




End StepSize.


Section Frame.

Context {B : Backend}.

Variables (lam rho1 rho2 : float) (threshold : nat).

Lemma same_inputs_refl self : same_inputs self self.
Proof. unfold same_inputs. now repeat split. Qed.

Lemma same_inputs_trans s1 s2 s3 :
  same_inputs s1 s2 -> same_inputs s2 s3 -> same_inputs s1 s3.
Proof.
  unfold same_inputs. intros (? & ? & ? & ? & ? & ? & ?) (? & ? & ? & ? & ? & ? & ?).
  repeat split; congruence.
Qed.

Lemma retry_frame e st g c self self' o :
  retry lam rho1 e st g c self = (self', o) -> same_inputs self self'.
Proof.
  unfold retry, bind, lift, split, assign, read, ret.
  destruct (py_div _ _) as [a | x |];
    [destruct (retry_step _ _ _ _) as [W | x |] | |];
    intros Hr; inversion Hr; subst; unfold same_inputs; cbn; now repeat split.
Qed.

Lemma propose_frame e st self self' o :
  propose e st self = (self', o) -> same_inputs self self'.
Proof.
  unfold propose, bind, lift, split, assign, read, ret.
  destruct (step _ _ _ _) as [W | x |];
    intros Hr; inversion Hr; subst; unfold same_inputs; cbn; now repeat split.
Qed.

Lemma backtrack_frame e st g fuel : forall c self self' o,
  backtrack lam rho1 threshold fuel e st g c self = (self', o) ->
  same_inputs self self'.
Proof.
  induction fuel as [| fuel IH]; intros c self self' o Hb; cbn [backtrack] in Hb;
    destruct (rejected e st g c);
    try (unfold ret, lift in Hb; inversion Hb; subst; apply same_inputs_refl).
  destruct (overflow rho1 threshold (S (j c))).
  - unfold raise in Hb. inversion Hb; subst. apply same_inputs_refl.
  - unfold bind in Hb.
    destruct (retry lam rho1 e st g c self) as [self1 o1] eqn:Hr.
    apply retry_frame in Hr.
    destruct o1 as [c1 | x |].
    + apply IH in Hb. now apply same_inputs_trans with self1.
    + now inversion Hb; subst.
    + now inversion Hb; subst.
Qed.

Lemma iteration_frame fuel e st idx self self' o :
  iteration lam rho1 rho2 threshold fuel e st idx self = (self', o) ->
  same_inputs self self'.
Proof.
  unfold iteration, bind.
  destruct (propose e st self) as [self1 o1] eqn:Hp. apply propose_frame in Hp.
  destruct o1 as [[g c0] | x |]; cbn [fst snd];
    try (intros Hi; now inversion Hi; subst).
  destruct (backtrack lam rho1 threshold fuel e st g c0 self1) as [self2 o2] eqn:Hb.
  apply backtrack_frame in Hb.
  pose proof (same_inputs_trans _ _ _ Hp Hb) as H12.
  destruct o2 as [c | x |]; try (intros Hi; now inversion Hi; subst).
  intros Hc. apply commit_same_object in Hc. destruct Hc as [-> _]. assumption.
Qed.

Lemma for_loop_frame fuel e idxs : forall st self self' o,
  for_loop lam rho1 rho2 threshold fuel e idxs st self = (self', o) ->
  same_inputs self self'.
Proof.
  induction idxs as [| idx rest IH]; intros st self self' o Hf; cbn [for_loop] in Hf.
  - unfold ret in Hf. inversion Hf; subst. apply same_inputs_refl.
  - unfold bind in Hf.
    destruct (iteration lam rho1 rho2 threshold fuel e st idx self)
      as [self1 o1] eqn:Hi.
    apply iteration_frame in Hi.
    destruct o1 as [[st1 [|]] | x |]; cbn [fst snd] in Hf;
      try (unfold ret in Hf; now inversion Hf; subst).
    apply IH in Hf. now apply same_inputs_trans with self1.
Qed.

(** X3: however a run ends, it has changed nothing of the object but
    [H1] and [H2]: the data matrix, the masks, the test matrix, the rank,
    [mu] and the iteration budget are as they were. *)
Theorem X3_run_only_writes_the_factors fuel self L self' o :
  MC_adaptive_2 fuel self lam L rho1 rho2 threshold = (self', o) ->
  A self' = A self /\ mask self' = mask self
  /\ test_matrix self' = test_matrix self
  /\ test_mask self' = test_mask self
  /\ k self' = k self /\ mu self' = mu self
  /\ iterations self' = iterations self.
Proof.
  change (MC_adaptive_2 fuel self lam L rho1 rho2 threshold = (self', o) ->
          same_inputs self self').
  unfold MC_adaptive_2, run, bind.
  destruct (start L self) as [self0 o0] eqn:Hs.
  apply start_same_object in Hs. subst self0.
  destruct o0 as [[e st0] | x |]; cbn [fst snd];
    try (intros Hr; inversion Hr; subst; apply same_inputs_refl).
  unfold read at 1.
  destruct (for_loop lam rho1 rho2 threshold fuel e (seq 0 (iterations self))
              st0 self) as [self1 o1] eqn:Hf.
  apply for_loop_frame in Hf.
  destruct o1 as [[st1 b1] | x |]; cbn [fst];
    try (intros Hr; now inversion Hr; subst).
  unfold finish, bind, read.
  destruct (i st1); intros Hr; now inversion Hr; subst.
Qed.

End Frame.

Lemma X3_run_only_writes_the_factors_witness :
  let out := MC_adaptive_2 (B := ref_backend) 20 (ex_1x1 6 3) 0.5 0.0625 2 0.5 2 in
  A (fst out) = A (ex_1x1 6 3) /\ mask (fst out) = mask (ex_1x1 6 3)
  /\ test_matrix (fst out) = test_matrix (ex_1x1 6 3)
  /\ test_mask (fst out) = test_mask (ex_1x1 6 3)
  /\ k (fst out) = k (ex_1x1 6 3) /\ mu (fst out) = mu (ex_1x1 6 3)
  /\ iterations (fst out) = iterations (ex_1x1 6 3).
Proof.
  cbv zeta.
  apply (X3_run_only_writes_the_factors (B := ref_backend) 0.5 2 0.5 2 20
           (ex_1x1 6 3) 0.0625 _ _ (surjective_pairing _)).
Defined.

Section Outcomes.

Context {B : Backend}.

Variables (lam rho1 rho2 : float) (threshold : nat).

(** *** Which exception comes from where *)







(** *** What a returned record holds *)

Lemma iteration_last fuel e st idx self self' st' b :
  iteration lam rho1 rho2 threshold fuel e st idx self
  = (self', Return (st', b)) ->
  last (loss st') 0 = calculate_loss self' / of_nat (m e * n e)
  /\ calculate_rmse self' = Return (last (rmse st') 0)
  /\ (b = true -> is_nan (last (loss st') 0) = true)
  /\ (exists x r, loss st' = loss st ++ [x] /\ rmse st' = rmse st ++ [r]).
Proof.
  intros Hi. apply iteration_Return_inv in Hi.
  destruct Hi as (self_c & g & c0 & c & Hprop & Hbt & Hc).
  apply propose_inv in Hprop. destruct Hprop as (_ & Hh0 & _).
  apply backtrack_Return_inv in Hbt. destruct Hbt as (_ & q & Ha).
  apply attempts_holds in Ha; [| exact Hh0]. destruct Ha as ((_ & _ & Hfk) & _).
  apply commit_Return_inv in Hc.
  destruct Hc as (_ & Hb & Hl & (r & Hr & Hrs) & _ & _).
  rewrite Hl, Hrs, !last_last, Hfk. repeat split; try assumption.
  - intros Hbt. rewrite <- Hfk. apply is_nan_div. congruence.
  - now exists (calculate_loss self' / of_nat (m e * n e)), r.
Qed.

Lemma for_loop_last fuel e idxs : forall st self self' st' b,
  for_loop lam rho1 rho2 threshold fuel e idxs st self
  = (self', Return (st', b)) ->
  (exists ls rs, loss st' = loss st ++ ls /\ rmse st' = rmse st ++ rs)
  /\ (b = true -> is_nan (last (loss st') 0) = true)
  /\ (idxs <> [] ->
      last (loss st') 0 = calculate_loss self' / of_nat (m e * n e)
      /\ calculate_rmse self' = Return (last (rmse st') 0)).
Proof.
  induction idxs as [| idx rest IH]; intros st self self' st' b Hf;
    cbn [for_loop] in Hf.
  - unfold ret in Hf. inversion Hf; subst. split; [| split].
    + exists [], []. now rewrite !app_nil_r.
    + discriminate.
    + congruence.
  - apply bind_Return_inv in Hf. destruct Hf as (s1 & [st1 b1] & Hi & Hf).
    apply iteration_last in Hi.
    destruct Hi as (Hl & Hr & Hnan & (x & r & Hls & Hrs)).
    cbn [fst snd] in Hf. destruct b1.
    + unfold ret in Hf. inversion Hf; subst. split; [| split].
      * now exists [x], [r].
      * intros _. now apply Hnan.
      * intros _. now split.
    + destruct rest as [| idx' rest'].
      * cbn [for_loop] in Hf. unfold ret in Hf. inversion Hf; subst.
        split; [| split].
        -- now exists [x], [r].
        -- discriminate.
        -- intros _. now split.
      * apply IH in Hf. destruct Hf as ((ls & rs & Hls' & Hrs') & Hnan' & Hlast).
        split; [| split].
        -- exists (x :: ls), (r :: rs).
           rewrite Hls', Hrs', Hls, Hrs, <- !app_assoc. now split.
        -- assumption.
        -- intros _. apply Hlast. discriminate.
Qed.

(** X6: the record's [iterations] is below the budget, and a run that
    stopped before the last iteration of its budget stopped on NaN: the
    last entry of its loss history is NaN. *)
Theorem X6_early_stop_means_nan fuel self L self' r :
  MC_adaptive_2 fuel self lam L rho1 rho2 threshold = (self', Return r) ->
  (MCAdaptive2Result.iterations r < iterations self)%nat
  /\ (length (MCAdaptive2Result.loss_history r) <= S (iterations self))%nat
  /\ ((S (MCAdaptive2Result.iterations r) < iterations self)%nat ->
      is_nan (last (MCAdaptive2Result.loss_history r) 0) = true).
Proof.
  unfold MC_adaptive_2, run. intros Hrun.
  apply bind_Return_inv in Hrun. destruct Hrun as (s0 & [e st0] & Hs & Hrun).
  apply start_Return_inv in Hs. destruct Hs as (-> & _ & r0 & a0 & _ & _ & Hst0).
  apply bind_Return_inv in Hrun. destruct Hrun as (s1 & budget & Hb & Hrun).
  unfold read in Hb. inversion Hb; subst s1 budget. clear Hb.
  apply bind_Return_inv in Hrun. destruct Hrun as (s2 & [st2 b2] & Hf & Hfin).
  cbn [fst snd] in *.
  pose proof Hf as Hcnt. apply for_loop_counts in Hcnt. cbv zeta in Hcnt.
  destruct Hcnt as (Hl & _ & Hle & Hfull & Hx).
  apply for_loop_last in Hf. destruct Hf as (_ & Hnan & _).
  unfold finish, bind, read in Hfin.
  destruct (executed lam rho1 rho2 threshold fuel e (seq 0 (iterations self)) st0 self)
    as [| x'].
  - destruct Hx as [_ ->]. subst st0. cbn in Hfin. discriminate.
  - rewrite Hx in Hfin. unfold ret in Hfin. inversion Hfin; subst r. cbn.
    rewrite Hl. subst st0. cbn [loss length].
    split; [lia |]. split; [lia |].
    intros Hearly. apply Hnan. destruct b2; [reflexivity |].
    specialize (Hfull eq_refl). lia.
Qed.

(** X7: a record is consistent with the object the run leaves.  Its
    completed matrix is [H1.dot(H2)] of that object, the last entries of
    its histories are the normalised loss and the RMSE of that object, and
    the first entries are the baseline of the object the run started
    from. *)
Theorem X7_record_matches_the_object fuel self L self' r :
  MC_adaptive_2 fuel self lam L rho1 rho2 threshold = (self', Return r) ->
  MCAdaptive2Result.completed_matrix r = dot (H1 self') (H2 self')
  /\ last (MCAdaptive2Result.loss_history r) 0
     = calculate_loss self' / of_nat (nrows (A self) * ncols (A self))
  /\ calculate_rmse self' = Return (last (MCAdaptive2Result.rmse_history r) 0)
  /\ exists r0 ls rs,
      calculate_rmse self = Return r0
      /\ MCAdaptive2Result.loss_history r
         = (calculate_loss self / of_nat (nrows (A self) * ncols (A self))) :: ls
      /\ MCAdaptive2Result.rmse_history r = r0 :: rs.
Proof.
  unfold MC_adaptive_2, run. intros Hrun.
  apply bind_Return_inv in Hrun. destruct Hrun as (s0 & [e st0] & Hs & Hrun).
  apply start_Return_inv in Hs. destruct Hs as (-> & He & r0 & a0 & Hr0 & _ & Hst0).
  assert (Hmn : (m e * n e = nrows (A self) * ncols (A self))%nat).
  { subst e. unfold setup, shape. reflexivity. }
  apply bind_Return_inv in Hrun. destruct Hrun as (s1 & budget & Hb & Hrun).
  unfold read in Hb. inversion Hb; subst s1 budget. clear Hb.
  apply bind_Return_inv in Hrun. destruct Hrun as (s2 & [st2 b2] & Hf & Hfin).
  cbn [fst snd] in *.
  pose proof Hf as Hcnt. apply for_loop_counts in Hcnt. cbv zeta in Hcnt.
  destruct Hcnt as (_ & _ & Hle & _ & Hx).
  apply for_loop_last in Hf. destruct Hf as ((ls & rs & Hls & Hrs) & _ & Hlast).
  unfold finish, bind, read in Hfin.
  destruct (executed lam rho1 rho2 threshold fuel e (seq 0 (iterations self)) st0 self)
    as [| x'].
  - destruct Hx as [_ ->]. subst st0. cbn in Hfin. discriminate.
  - rewrite Hx in Hfin. unfold ret in Hfin. inversion Hfin; subst r self'. cbn.
    assert (Hne : seq 0 (iterations self) <> []).
    { destruct (iterations self); [lia | discriminate]. }
    destruct (Hlast Hne) as (Hl1 & Hl2). rewrite Hmn in Hl1.
    split; [reflexivity |]. split; [assumption |]. split; [assumption |].
    exists r0, ls, rs. rewrite Hls, Hrs. subst st0. cbn. rewrite Hmn.
    now repeat split.
Qed.

End Outcomes.

Lemma X6_early_stop_means_nan_witness :
  let self := ex_1x1 0x1p+600 3 in
  exists self' r,
    MC_adaptive_2 (B := plain_backend) 20 self 0.5 1 2 0.5 20
    = (self', Return r)
    /\ MCAdaptive2Result.iterations r = 0%nat
    /\ (MCAdaptive2Result.iterations r < iterations self)%nat
    /\ (length (MCAdaptive2Result.loss_history r) <= S (iterations self))%nat
    /\ ((S (MCAdaptive2Result.iterations r) < iterations self)%nat ->
        is_nan (last (MCAdaptive2Result.loss_history r) 0) = true).
Proof.
  cbv zeta.
  destruct (MC_adaptive_2 (B := plain_backend) 20 (ex_1x1 0x1p+600 3) 0.5 1 2 0.5 20)
    as [self' [r | x |]] eqn:Hrun; try (vm_compute in Hrun; discriminate).
  exists self', r. split; [reflexivity |]. split.
  - vm_compute in Hrun. now inversion Hrun.
  - exact (X6_early_stop_means_nan (B := plain_backend) _ _ _ _ _ _ _ _ _ Hrun).
Defined.

Lemma X7_record_matches_the_object_witness :
  exists self' r,
    MC_adaptive_2 (B := ref_backend) 20 ex_4x3 lam_001 1 2 0.5 20
    = (self', Return r)
    /\ MCAdaptive2Result.completed_matrix r = dot (H1 self') (H2 self')
    /\ last (MCAdaptive2Result.loss_history r) 0
       = calculate_loss (B := ref_backend) self'
         / of_nat (nrows (A ex_4x3) * ncols (A ex_4x3))
    /\ calculate_rmse (B := ref_backend) self'
       = Return (last (MCAdaptive2Result.rmse_history r) 0)
    /\ exists r0 ls rs,
        calculate_rmse (B := ref_backend) ex_4x3 = Return r0
        /\ MCAdaptive2Result.loss_history r
           = (calculate_loss (B := ref_backend) ex_4x3
              / of_nat (nrows (A ex_4x3) * ncols (A ex_4x3))) :: ls
        /\ MCAdaptive2Result.rmse_history r = r0 :: rs.
Proof.
  destruct (MC_adaptive_2 (B := ref_backend) 20 ex_4x3 lam_001 1 2 0.5 20)
    as [self' [r | x |]] eqn:Hrun; try (vm_compute in Hrun; discriminate).
  exists self', r. split; [reflexivity |].
  exact (X7_record_matches_the_object (B := ref_backend) _ _ _ _ _ _ _ _ _ Hrun).
Defined.

(** * [calculate_rmse] and the test mask *)

Section Rmse.

Context {B : Backend}.

Lemma length_nonzero_row (r : list float) : forall a (ix : nat),
  length (map (fun jx : nat * float => (ix, fst jx))
              (filter (fun jx => negb (snd jx =? 0))
                      (combine (seq a (length r)) r)))
  = length (filter (fun x => negb (x =? 0)) r).
Proof.
  induction r as [| x r IH]; intros a ix; cbn [length seq combine filter snd].
  - reflexivity.
  - destruct (negb (x =? 0)); cbn [map length]; now rewrite IH.
Qed.

Lemma length_nonzero_from (X : matrix) : forall a,
  length
    (concat
       (map (fun ir : nat * list float =>
               map (fun jx : nat * float => (fst ir, fst jx))
                   (filter (fun jx => negb (snd jx =? 0))
                           (combine (seq 0 (length (snd ir))) (snd ir))))
            (combine (seq a (length X)) X)))
  = length (filter (fun x => negb (x =? 0)) (concat X)).
Proof.
  induction X as [| r X IH]; intros a; cbn [length seq combine map concat fst snd].
  - reflexivity.
  - now rewrite filter_app, !length_app, IH, length_nonzero_row.
Qed.

(** [nonzero] lists one position for each non-zero entry. *)
Lemma length_nonzero (X : matrix) :
  length (nonzero X) = length (filter (fun x => negb (x =? 0)) (concat X)).
Proof. unfold nonzero. apply length_nonzero_from. Qed.


(** The entries of a row at the positions selected in a mask row *)
Lemma take_row (mrow : list float) : forall (pre x : list float),
  length x = length mrow ->
  map (fun jx : nat * float => nth (fst jx) (pre ++ x) 0)
      (filter (fun jx => negb (snd jx =? 0))
              (combine (seq (length pre) (length mrow)) mrow))
  = map fst (filter (fun t => negb (snd t =? 0)) (combine x mrow)).
Proof.
  induction mrow as [| v mrow IH]; intros pre x Hlen.
  - destruct x; [reflexivity | discriminate].
  - destruct x as [| x0 x]; [discriminate |]. cbn in Hlen.
    cbn [length seq combine filter snd].
    assert (Hrest :
      map (fun jx : nat * float => nth (fst jx) (pre ++ x0 :: x) 0)
          (filter (fun jx => negb (snd jx =? 0))
                  (combine (seq (S (length pre)) (length mrow)) mrow))
      = map fst (filter (fun t => negb (snd t =? 0)) (combine x mrow))).
    { specialize (IH (pre ++ [x0]) x ltac:(lia)).
      rewrite <- app_assoc, length_app, Nat.add_1_r in IH. exact IH. }
    destruct (negb (v =? 0)); cbn [map fst]; rewrite Hrest; [| reflexivity].
    now rewrite nth_middle.
Qed.

Lemma combine_app_eq {X Y : Type} (l1 l2 : list X) (k1 k2 : list Y) :
  length l1 = length k1 ->
  combine (l1 ++ l2) (k1 ++ k2) = combine l1 k1 ++ combine l2 k2.
Proof.
  revert k1. induction l1 as [| x l1 IH]; intros [| y k1] Hlen; try discriminate.
  - reflexivity.
  - cbn. f_equal. apply IH. now inversion Hlen.
Qed.

(** Indexing by the non-zero positions of a mask of the same shape is
    filtering the flattened matrix by the flattened mask. *)
Lemma take_nonzero_from (Mk : matrix) : forall (Pre X : matrix) (c : nat),
  length X = length Mk ->
  Forall (fun row => length row = c) X ->
  Forall (fun row => length row = c) Mk ->
  map (fun ij : nat * nat => nth (snd ij) (nth (fst ij) (Pre ++ X) []) 0)
      (concat
         (map (fun ir : nat * list float =>
                 map (fun jx : nat * float => (fst ir, fst jx))
                     (filter (fun jx => negb (snd jx =? 0))
                             (combine (seq 0 (length (snd ir))) (snd ir))))
              (combine (seq (length Pre) (length Mk)) Mk)))
  = map fst (filter (fun t => negb (snd t =? 0))
                    (combine (concat X) (concat Mk))).
Proof.
  induction Mk as [| mrow Mk IH]; intros Pre X c Hlen HX HM.
  - destruct X; [reflexivity | discriminate].
  - destruct X as [| x X]; [discriminate |]. cbn in Hlen.
    inversion HX as [| ? ? Hx HX']; subst. inversion HM as [| ? ? Hm HM']; subst.
    cbn [length seq combine map concat fst snd].
    rewrite map_app, combine_app_eq by congruence.
    rewrite filter_app, map_app. f_equal.
    + rewrite map_map. cbn [fst snd]. rewrite nth_middle.
      apply (take_row mrow [] x). congruence.
    + specialize (IH (Pre ++ [x]) X (length x) ltac:(lia) HX' HM').
      rewrite <- app_assoc, length_app, Nat.add_1_r in IH. exact IH.
Qed.

Lemma take_nonzero (X Mk : matrix) (r c : nat) :
  has_shape r c X = true -> has_shape r c Mk = true ->
  take X (nonzero Mk)
  = map fst (filter (fun t => negb (snd t =? 0))
                    (combine (concat X) (concat Mk))).
Proof.
  intros HX HM. apply has_shape_spec in HX. apply has_shape_spec in HM.
  destruct HX as [HlX HrX]. destruct HM as [HlM HrM].
  unfold take, nonzero.
  apply (take_nonzero_from Mk [] X c); congruence.
Qed.

(** X8: on a well-shaped object [calculate_rmse] compares, in row-major
    order, the entries of the test matrix with the entries of
    [test_mask.multiply(H1.dot(H2))] at the positions where the test mask
    is not zero, and no others: the two arrays it hands to
    [mean_squared_error] are the flattened matrices filtered by the
    flattened mask.  When no position is selected it raises
    [AttributeError] and does not call [mean_squared_error]. *)
Theorem X8_rmse_compares_the_selected_entries self :
  wf self = true ->
  let select (X : matrix) :=
    map fst (filter (fun t => negb (snd t =? 0))
                    (combine (concat X) (concat (test_mask self)))) in
  let ys := select (test_matrix self) in
  let ps := select (multiply (test_mask self) (dot (H1 self) (H2 self))) in
  length ys = length (filter (fun x => negb (x =? 0)) (concat (test_mask self)))
  /\ length ps = length ys
  /\ calculate_rmse self
     = match ys with
       | [] => Raise AttributeError
       | _ :: _ =>
           match mean_squared_error ys ps with
           | Some mse => Return (PrimFloat.sqrt mse)
           | None => Raise ValueError
           end
       end.
Proof.
  intros Hwf select ys ps.
  assert (Hsh : has_shape (nrows (A self)) (ncols (A self)) (test_matrix self) = true
                /\ has_shape (nrows (A self)) (ncols (A self)) (test_mask self) = true).
  { revert Hwf. unfold wf, shape. intros Hwf.
    repeat (apply andb_true_iff in Hwf; destruct Hwf as [Hwf ?]). now split. }
  destruct Hsh as [HT HM].
  destruct (wf_inv self _ _ Hwf eq_refl) as (_ & _ & Hk & _ & _ & HH1 & HH2).
  pose proof (has_shape_dot _ _ _ _ _ _ HH1 HH2 Hk) as HP.
  pose proof (has_shape_map2 mul_stored _ _ _ _ HM HP) as HMP.
  fold (multiply (test_mask self) (dot (H1 self) (H2 self))) in HMP.
  assert (Hys : take (test_matrix self) (nonzero (test_mask self)) = ys)
    by (apply take_nonzero with (r := nrows (A self)) (c := ncols (A self));
        assumption).
  assert (Hps : take (multiply (test_mask self) (dot (H1 self) (H2 self)))
                     (nonzero (test_mask self)) = ps)
    by (apply take_nonzero with (r := nrows (A self)) (c := ncols (A self));
        assumption).
  assert (Hly : length ys = length (nonzero (test_mask self)))
    by (rewrite <- Hys; unfold take; now rewrite length_map).
  assert (Hlp : length ps = length (nonzero (test_mask self)))
    by (rewrite <- Hps; unfold take; now rewrite length_map).
  split; [now rewrite Hly, length_nonzero |]. split; [congruence |].
  unfold calculate_rmse. rewrite Hys, Hps.
  destruct (nonzero (test_mask self)) as [| ij idx]; destruct ys as [| y ys'];
    try discriminate; reflexivity.
Qed.


End Rmse.

Lemma X8_rmse_compares_the_selected_entries_witness :
  let self :=
    {| A := [[1; 2]; [3; 4]]; mask := [[1; 1]; [1; 0]];
       test_matrix := [[1; 2]; [3; 4]]; test_mask := [[0; 1]; [0; 1]];
       k := 1; mu := 0; iterations := 1;
       H1 := [[-1]; [1]]; H2 := [[0.25; -1.5]] |} in
  take (test_matrix self) (nonzero (test_mask self)) = [2; 4]
  /\ take (multiply (test_mask self) (dot (H1 self) (H2 self)))
          (nonzero (test_mask self)) = [1.5; -1.5]
  /\ let select (X : matrix) :=
       map fst (filter (fun t => negb (snd t =? 0))
                       (combine (concat X) (concat (test_mask self)))) in
     let ys := select (test_matrix self) in
     let ps := select (multiply (test_mask self) (dot (H1 self) (H2 self))) in
     length ys
     = length (filter (fun x => negb (x =? 0)) (concat (test_mask self)))
     /\ length ps = length ys
     /\ calculate_rmse (B := ref_backend) self
        = match ys with
          | [] => Raise AttributeError
          | _ :: _ =>
              match mean_squared_error (Backend := ref_backend) ys ps with
              | Some mse => Return (PrimFloat.sqrt mse)
              | None => Raise ValueError
              end
          end.
Proof.
  intros self. split; [reflexivity |]. split; [reflexivity |].
  apply (X8_rmse_compares_the_selected_entries (B := ref_backend) self).
  reflexivity.
Defined.


(** * The gradient *)

(** X10: on a well-shaped object the stacked gradient of lines 174-184 has
    the shape of the stacked state [vstack([H1, H2.T])], (m + n) x k. *)
Theorem X10_gradient_has_the_shape_of_W self :
  wf self = true ->
  has_shape (nrows (A self) + ncols (A self)) (k self) (gradient self) = true
  /\ shape (gradient self) = shape (vstack (H1 self) (transpose (H2 self)))
  /\ shape (gradient self)
     = ((nrows (A self) + ncols (A self))%nat, k self).
Proof.
  intros Hwf.
  pose proof (gradient_shape self _ _ Hwf eq_refl) as Hg.
  destruct (wf_inv self _ _ Hwf eq_refl) as (Hr & Hc & Hk & _ & _ & HH1 & HH2).
  pose proof (has_shape_vstack _ _ _ _ _ HH1 (has_shape_transpose _ _ _ HH2 Hk)) as HW.
  assert (Hsh : forall X, has_shape (nrows (A self) + ncols (A self)) (k self) X = true ->
                          shape X = ((nrows (A self) + ncols (A self))%nat, k self)).
  { intros X HX. unfold shape, nrows.
    rewrite (ncols_has_shape _ _ _ HX) by lia.
    apply has_shape_spec in HX. destruct HX as [-> _]. reflexivity. }
  split; [assumption |]. rewrite (Hsh _ Hg), (Hsh _ HW). now split.
Qed.

Lemma X10_gradient_has_the_shape_of_W_witness :
  has_shape (nrows (A ex_4x3) + ncols (A ex_4x3)) (k ex_4x3)
            (gradient ex_4x3) = true
  /\ shape (gradient ex_4x3)
     = shape (vstack (H1 ex_4x3) (transpose (H2 ex_4x3)))
  /\ shape (gradient ex_4x3)
     = ((nrows (A ex_4x3) + ncols (A ex_4x3))%nat, k ex_4x3).
Proof.
  apply (X10_gradient_has_the_shape_of_W ex_4x3).
  reflexivity.
Defined.
